(** * utymap: terrain layer compositing and tree placement

    A shallow embedding of
      - [src/terrain/TerraBuilder.cpp]  (module [Terra]), and
      - [core/src/builders/poi/TreeBuilder.cpp]  (module [Tree]),
    with the properties of the terrain specification stated over it.

    C++ [double] values are IEEE binary64 floats (the kernel's primitive
    floats); integers are [Z] with the conversions written out. *)

From Stdlib Require Import ZArith List Bool Lia Floats Uint63 String.
From Stdlib Require Import FMapList OrderedTypeEx Sorted SetoidList.
Import ListNotations.
Open Scope Z_scope.

(* ================================================================== *)
(** * Part I: the programs

    Doubles and their conversions, the polygon engine's interface, the
    terrain builder and the tree builder, with the definitions the
    statements of Part II are written in. *)

(* ================================================================== *)
(** ** Doubles and the conversions the two files perform on them *)

Module Double.

(** The integer a finite double truncates to (rounding toward zero), as a
    C++ floating-to-integer conversion computes before the range check. *)
Definition truncate (v : float) : option Z :=
  match Prim2SF v with
  | S754_zero _ => Some 0
  | S754_finite s m e =>
      let a := if 0 <=? e then Z.pos m * 2 ^ e else Z.quot (Z.pos m) (2 ^ (- e)) in
      Some (if s then - a else a)
  | S754_infinity _ | S754_nan => None
  end.

(** The mathematical floor of a finite double. *)
Definition floor (v : float) : option Z :=
  match Prim2SF v with
  | S754_zero _ => Some 0
  | S754_finite s m e =>
      let n := if s then Z.neg m else Z.pos m in
      Some (if 0 <=? e then n * 2 ^ e else n / 2 ^ (- e))
  | S754_infinity _ | S754_nan => None
  end.

(** [static_cast] of a double to a signed integer type of [bits] bits.
    Where the truncated value is not representable (or the double is not
    finite) C++ leaves the conversion undefined; the model then returns the
    smallest value of the type, which is what the x86-64 conversion
    instruction yields. *)
Definition to_signed (bits : Z) (v : float) : Z :=
  match truncate v with
  | Some z =>
      if (- 2 ^ (bits - 1) <=? z) && (z <? 2 ^ (bits - 1)) then z
      else - 2 ^ (bits - 1)
  | None => - 2 ^ (bits - 1)
  end.

(** Conversion of a [uint64_t] to double (round to nearest).  Values of
    2^63 and above are halved with a sticky low bit first, so that the
    63-bit primitive conversion rounds them correctly. *)
Definition of_uint64 (n : Z) : float :=
  if n <? 2 ^ 63 then PrimFloat.of_uint63 (Uint63.of_Z n)
  else PrimFloat.mul
         (PrimFloat.of_uint63 (Uint63.of_Z (Z.lor (Z.shiftr n 1) (Z.land n 1))))
         (PrimFloat.of_uint63 (Uint63.of_Z 2)).

(** Conversion of an [int] to double (exact: an int has fewer than 53 bits). *)
Definition of_int (n : Z) : float :=
  if n <? 0 then PrimFloat.opp (PrimFloat.of_uint63 (Uint63.of_Z (- n)))
  else PrimFloat.of_uint63 (Uint63.of_Z n).

End Double.

(* ================================================================== *)
(** ** The polygon engine, as [meshing/clipper.hpp] presents it

    The engine itself is an external collaborator: the builder only adds
    paths to a [Clipper] (or a [ClipperOffset]) object, executes an
    operation and clears the object.  The model keeps the objects' state
    (the paths added since the last [Clear]) and hands it to the engine,
    which is a parameter of the development. *)

Module ClipperLib.

Record IntPoint := mkIntPoint { X : Z; Y : Z }.
Definition Path := list IntPoint.
Definition Paths := list Path.

Inductive ClipType := ctIntersection | ctUnion | ctDifference | ctXor.
Inductive PolyType := ptSubject | ptClip.
Inductive PolyFillType := pftEvenOdd | pftNonZero | pftPositive | pftNegative.
Inductive JoinType := jtSquare | jtRound | jtMiter.
Inductive EndType :=
  etClosedPolygon | etClosedLine | etOpenButt | etOpenSquare | etOpenRound.

(** One [AddPath] call: the path, its role and the [closed] flag. *)
Record Added := mkAdded { addedPath : Path; addedAs : PolyType; addedClosed : bool }.

(** One path handed to [ClipperOffset::AddPath]. *)
Record OffsetAdded :=
  mkOffsetAdded { offsetPath : Path; offsetJoin : JoinType; offsetEnd : EndType }.

(** What the builder consumes from the engine.
    - [clip ct subjFill clipFill added]: the solution of [Clipper::Execute];
    - [defaultFillType]: the fill rule the header declares as default
      argument of the three-argument [Execute] (ClipperLib declares
      [pftEvenOdd]; the header is not part of the sources at hand, so the
      value stays a parameter);
    - [inflate added delta]: the solution of [ClipperOffset::Execute];
    - [Area]: [ClipperLib::Area]. *)
Class Engine := {
  clip : ClipType -> PolyFillType -> PolyFillType -> list Added -> Paths;
  defaultFillType : PolyFillType;
  inflate : list OffsetAdded -> float -> Paths;
  Area : Path -> float
}.

(** The state of a [Clipper]: the paths added since the last [Clear]. *)
Definition Clipper := list Added.
Definition ClipperOffset := list OffsetAdded.

Definition newClipper : Clipper := [].
Definition newClipperOffset : ClipperOffset := [].

Definition tagged (pt : PolyType) (closed : bool) (ps : Paths) : list Added :=
  map (fun p => mkAdded p pt closed) ps.

Definition AddPath (c : Clipper) (p : Path) (pt : PolyType) (closed : bool) : Clipper :=
  c ++ [mkAdded p pt closed].

Definition AddPaths (c : Clipper) (ps : Paths) (pt : PolyType) (closed : bool) : Clipper :=
  fold_left (fun c' p => AddPath c' p pt closed) ps c.

Definition Clear (c : Clipper) : Clipper := [].

Definition OffsetAddPaths (o : ClipperOffset) (ps : Paths) (jt : JoinType) (et : EndType)
  : ClipperOffset :=
  fold_left (fun o' p => o' ++ [mkOffsetAdded p jt et]) ps o.

Definition OffsetClear (o : ClipperOffset) : ClipperOffset := [].

Section WithEngine.
Context {E : Engine}.

(** [Execute(clipType, solution, subjFillType, clipFillType)]. *)
Definition Execute (c : Clipper) (ct : ClipType) (sf cf : PolyFillType) : Paths :=
  clip ct sf cf c.

(** [Execute(clipType, solution)]: both fill rules default. *)
Definition ExecuteDefault (c : Clipper) (ct : ClipType) : Paths :=
  clip ct defaultFillType defaultFillType c.

Definition OffsetExecute (o : ClipperOffset) (delta : float) : Paths :=
  inflate o delta.

End WithEngine.

(** *** The engine's contract

    What the specification asks of the engine, over an abstract plane:
    [filled f ps p] says that the path set [ps], read under fill rule [f],
    covers the point [p].  A solution covers exactly the points the boolean
    operation selects, whichever of the even-odd, non-zero and positive
    rules it is read under afterwards. *)

Definition isSubject (a : Added) : bool :=
  match addedAs a with ptSubject => true | ptClip => false end.
Definition subjectsOf (added : list Added) : Paths :=
  map addedPath (filter isSubject added).
Definition clipsOf (added : list Added) : Paths :=
  map addedPath (filter (fun a => negb (isSubject a)) added).

Definition selects (ct : ClipType) (inSubject inClip : Prop) : Prop :=
  match ct with
  | ctIntersection => inSubject /\ inClip
  | ctUnion => inSubject \/ inClip
  | ctDifference => inSubject /\ ~ inClip
  | ctXor => (inSubject /\ ~ inClip) \/ (inClip /\ ~ inSubject)
  end.

Class Sound (E : Engine) (point : Type) := {
  filled : PolyFillType -> Paths -> point -> Prop;
  clip_sound : forall ct sf cf added f p,
    f <> pftNegative ->
    (filled f (clip ct sf cf added) p <->
     selects ct (filled sf (subjectsOf added) p) (filled cf (clipsOf added) p));
  default_not_negative : defaultFillType <> pftNegative
}.

End ClipperLib.

(* ================================================================== *)
(** ** A small executable engine

    An engine on which the stages can be run and against which the
    contract can be checked: a path set stands for the multiset of its
    vertices, a fill rule reads the number of times a vertex occurs, and a
    solution is the single path of the selected vertices, each once. *)

Module Lattice.
Import ClipperLib.

Definition IntPoint_eq_dec (a b : IntPoint) : {a = b} + {a <> b}.
Proof. decide equality; apply Z.eq_dec. Defined.

Definition occurrences (ps : Paths) (p : IntPoint) : nat :=
  count_occ IntPoint_eq_dec (concat ps) p.

Definition fills (f : PolyFillType) (n : nat) : bool :=
  match f with
  | pftEvenOdd => Nat.odd n
  | pftNonZero | pftPositive => negb (Nat.eqb n 0)
  | pftNegative => false
  end.

Definition selectsb (ct : ClipType) (s c : bool) : bool :=
  match ct with
  | ctIntersection => s && c
  | ctUnion => s || c
  | ctDifference => s && negb c
  | ctXor => xorb s c
  end.

Definition covered (f : PolyFillType) (ps : Paths) (p : IntPoint) : bool :=
  fills f (occurrences ps p).

Definition latticeClip (ct : ClipType) (sf cf : PolyFillType) (added : list Added) : Paths :=
  [filter (fun p => selectsb ct (covered sf (subjectsOf added) p) (covered cf (clipsOf added) p))
          (nodup IntPoint_eq_dec (concat (map addedPath added)))].

#[export] Instance engine : Engine := {|
  clip := latticeClip;
  defaultFillType := pftEvenOdd;
  inflate := fun added _ => map offsetPath added;
  Area := fun _ => 0%float
|}.

End Lattice.

(* ================================================================== *)
(** ** [src/terrain/TerraBuilder.cpp] *)

Module Terra.
Import ClipperLib.

(** [const uint64_t Scale = 1E8;] *)
Definition Scale : Z := 100000000.
(** [const uint64_t DoubleScale = Scale * Scale;] in 64-bit unsigned
    arithmetic. *)
Definition DoubleScale : Z := (Scale * Scale) mod 2 ^ 64.

(** *** Data the file works on *)

Record Point := mkPoint { x : float; y : float }.
Record Rectangle := mkRectangle { xMin : float; yMin : float; xMax : float; yMax : float }.
(** Of a [MeshRegion] the file reads only [points]. *)
Record MeshRegion := mkMeshRegion { points : list Point }.
Definition MeshRegions := list MeshRegion.
(** [std::unordered_map<int, MeshRegions>]: its entries in the order the
    container iterates them (which the container does not specify). *)
Definition RoadMap := list (Z * MeshRegions).
(** [std::map<int, MeshRegions>]: an ordered map on integer keys. *)
Module SurfaceMap := FMapList.Make(Z_as_OT).
(** [Mesh<double>]: vertex coordinates and triangle indices. *)
Record Mesh := mkMesh { vertices : list float; triangles : list Z }.
Definition emptyMesh : Mesh := mkMesh [] [].
(** [LineGridSplitter<double>], of which the file only runs the
    constructor. *)
Record LineGridSplitter := mkSplitter { gridCellSize : Z; roundDigitCount : Z }.

Record TerraContext := mkContext {
  clipRect : Path;
  water : Paths;
  carRoads : Paths;
  walkRoads : Paths;
  surfaces : Paths;
  background : Paths;
  splitter : LineGridSplitter;
  mesh : Mesh
}.

(** [TerraContext(int gridCellSize, int roundDigitCount)]: every other
    member is default-constructed. *)
Definition newContext (cell digits : Z) : TerraContext :=
  mkContext [] [] [] [] [] [] (mkSplitter cell digits) emptyMesh.

Definition set_clipRect (ctx : TerraContext) (p : Path) : TerraContext :=
  mkContext p (water ctx) (carRoads ctx) (walkRoads ctx) (surfaces ctx)
            (background ctx) (splitter ctx) (mesh ctx).
Definition set_water (ctx : TerraContext) (ps : Paths) : TerraContext :=
  mkContext (clipRect ctx) ps (carRoads ctx) (walkRoads ctx) (surfaces ctx)
            (background ctx) (splitter ctx) (mesh ctx).
Definition set_carRoads (ctx : TerraContext) (ps : Paths) : TerraContext :=
  mkContext (clipRect ctx) (water ctx) ps (walkRoads ctx) (surfaces ctx)
            (background ctx) (splitter ctx) (mesh ctx).
Definition set_walkRoads (ctx : TerraContext) (ps : Paths) : TerraContext :=
  mkContext (clipRect ctx) (water ctx) (carRoads ctx) ps (surfaces ctx)
            (background ctx) (splitter ctx) (mesh ctx).
Definition set_surfaces (ctx : TerraContext) (ps : Paths) : TerraContext :=
  mkContext (clipRect ctx) (water ctx) (carRoads ctx) (walkRoads ctx) ps
            (background ctx) (splitter ctx) (mesh ctx).
Definition set_background (ctx : TerraContext) (ps : Paths) : TerraContext :=
  mkContext (clipRect ctx) (water ctx) (carRoads ctx) (walkRoads ctx) (surfaces ctx)
            ps (splitter ctx) (mesh ctx).

(** The builder object: the members [build] reads. *)
Record TerraBuilder := mkBuilder {
  waters_ : MeshRegions;
  carRoads_ : RoadMap;
  walkRoads_ : RoadMap;
  surfaces_ : SurfaceMap.t MeshRegions
}.

(** *** Fixed-point conversion *)

(** [v * Scale] converted to [cInt] (a 64-bit signed integer): [Scale] is
    converted to double, the product is a double, and the [IntPoint]
    constructor truncates it. *)
Definition scaled (v : float) : Z :=
  Double.to_signed 64 (PrimFloat.mul v (Double.of_uint64 Scale)).

(** [IntPoint(point.x*Scale, point.y*Scale)]. *)
Definition toIntPoint (p : Point) : IntPoint := mkIntPoint (scaled (x p)) (scaled (y p)).

(** [IntPoint()]: both coordinates default to zero. *)
Definition defaultIntPoint : IntPoint := mkIntPoint 0 0.

(** Lines 39-48. *)
Definition createPathFromRect (tileRect : Rectangle) : Path :=
  let rect : Path := [] in
  let rect := rect ++ [mkIntPoint (scaled (xMin tileRect)) (scaled (yMin tileRect))] in
  let rect := rect ++ [mkIntPoint (scaled (xMin tileRect)) (scaled (yMin tileRect))] in
  let rect := rect ++ [mkIntPoint (scaled (xMin tileRect)) (scaled (yMin tileRect))] in
  let rect := rect ++ [mkIntPoint (scaled (xMin tileRect)) (scaled (yMin tileRect))] in
  rect.

(** The conversion loop of lines 64-67, which lines 119-122 repeat:
    [Path p(region.points.size());] creates a path of that many
    default points, and the loop then pushes the scaled points behind them. *)
Definition regionPath (region : MeshRegion) : Path :=
  fold_left (fun p point => p ++ [toIntPoint point]) (points region)
            (repeat defaultIntPoint (length (points region))).

(** Lines 60-71: [Paths paths(regions.size());] likewise starts from that
    many empty paths. *)
Definition buildPaths (regions : MeshRegions) : Paths :=
  fold_left (fun paths region => paths ++ [regionPath region]) regions
            (repeat ([] : Path) (length regions)).

(** *** The stages *)

Section WithEngine.
Context {E : Engine}.

(** Lines 50-58. *)
Definition clipByRect (clipper : Clipper) (rect : Path) (subjects : Paths)
  : Paths * Clipper :=
  let clipper := AddPaths clipper subjects ptSubject true in
  let clipper := AddPath clipper rect ptClip true in
  let solution := ExecuteDefault clipper ctIntersection in
  let clipper := Clear clipper in
  (solution, clipper).

(** Lines 73-86.  The loop body, then the function. *)
Definition offsetRoadClass (st : Clipper * ClipperOffset) (r : Z * MeshRegions)
  : Clipper * ClipperOffset :=
  let '(clipper, offset) := st in
  let offset := OffsetAddPaths offset (buildPaths (snd r)) jtMiter etOpenSquare in
  let offsetSolution := OffsetExecute offset (Double.of_int (fst r)) in
  let clipper := AddPaths clipper offsetSolution ptSubject true in
  let offset := OffsetClear offset in
  (clipper, offset).

Definition buildOffsetSolution (clipper : Clipper) (offset : ClipperOffset) (roads : RoadMap)
  : Paths * Clipper * ClipperOffset :=
  let '(clipper, offset) := fold_left offsetRoadClass roads (clipper, offset) in
  let polySolution := Execute clipper ctUnion pftPositive pftPositive in
  let clipper := Clear clipper in
  (polySolution, clipper, offset).

(** Lines 88-96. *)
Definition clipRoads (clipper : Clipper) (context : TerraContext) (roads : Paths)
  : Paths * Clipper :=
  let clipper := AddPaths clipper (water context) ptClip true in
  let clipper := AddPaths clipper roads ptSubject true in
  let resultRoads := Execute clipper ctDifference pftPositive pftPositive in
  let clipper := Clear clipper in
  clipByRect clipper (clipRect context) resultRoads.

(** [std::abs(area / DoubleScale) < 0.001]; the literal is the double
    nearest to 0.001. *)
Definition areaThreshold : float := 0x1.0624dd2f1a9fcp-10%float.

Definition belowThreshold (path : Path) : bool :=
  PrimFloat.ltb
    (PrimFloat.abs (PrimFloat.div (Area path) (Double.of_uint64 DoubleScale)))
    areaThreshold.

(** Lines 98-107.  The source leaves the work on a polygon that passes the
    filter open ([// TODO]); [todo] stands for whatever is written there, and
    [populateMesh] is the function as it is, with nothing there. *)
Definition populateMeshWith (todo : Mesh -> MeshRegion -> Path -> Mesh)
  (m : Mesh) (region : MeshRegion) (paths : Paths) : Mesh :=
  fold_left (fun m path => if belowThreshold path then m else todo m region path) paths m.

Definition populateMesh (m : Mesh) (region : MeshRegion) (paths : Paths) : Mesh :=
  populateMeshWith (fun m _ _ => m) m region paths.

(** Lines 116-130. *)
Definition buildWater (clipper : Clipper) (context : TerraContext) (regions : MeshRegions)
  : TerraContext * Clipper :=
  let clipper :=
    fold_left (fun c region => AddPath c (regionPath region) ptSubject true) regions clipper in
  let solution := ExecuteDefault clipper ctUnion in
  let clipper := Clear clipper in
  let '(clipped, clipper) := clipByRect clipper (clipRect context) solution in
  (set_water context clipped, clipper).

(** Lines 133-147. *)
Definition buildRoads (clipper : Clipper) (context : TerraContext) (carMap walkMap : RoadMap)
  : TerraContext * Clipper :=
  let offset := newClipperOffset in
  let '(carRoadPaths, clipper, offset) := buildOffsetSolution clipper offset carMap in
  let '(walkRoadsPaths, clipper, offset) := buildOffsetSolution clipper offset walkMap in
  let clipper := AddPaths clipper carRoadPaths ptClip true in
  let clipper := AddPaths clipper walkRoadsPaths ptSubject true in
  let extrudedWalkRoads := ExecuteDefault clipper ctDifference in
  let clipper := Clear clipper in
  let '(cars, clipper) := clipRoads clipper context carRoadPaths in
  let context := set_carRoads context cars in
  let '(walks, clipper) := clipRoads clipper context extrudedWalkRoads in
  let context := set_walkRoads context walks in
  (context, clipper).

(** Lines 150-177.  The loop body for one entry of the map, then the loop
    over the map's entries in the order [std::map] iterates them. *)
Definition buildSurface (st : TerraContext * Clipper) (surfacePair : Z * MeshRegions)
  : TerraContext * Clipper :=
  let '(context, clipper) := st in
  let paths := buildPaths (snd surfacePair) in
  let clipper := AddPaths clipper paths ptSubject true in
  let surfacesUnion := ExecuteDefault clipper ctUnion in
  let clipper := Clear clipper in
  let clipper := AddPaths clipper (carRoads context) ptClip true in
  let clipper := AddPaths clipper (walkRoads context) ptClip true in
  let clipper := AddPaths clipper (water context) ptClip true in
  let clipper := AddPaths clipper (surfaces context) ptClip true in
  let clipper := AddPaths clipper surfacesUnion ptSubject true in
  let result := Execute clipper ctDifference pftPositive pftPositive in
  let clipper := Clear clipper in
  let '(result, clipper) := clipByRect clipper (clipRect context) result in
  (set_surfaces context (surfaces context ++ result), clipper).

Definition buildSurfaces (clipper : Clipper) (context : TerraContext)
  (surfaceMap : SurfaceMap.t MeshRegions) : TerraContext * Clipper :=
  fold_left buildSurface (SurfaceMap.elements surfaceMap) (context, clipper).

(** Lines 180-190. *)
Definition buildBackground (clipper : Clipper) (context : TerraContext)
  : TerraContext * Clipper :=
  let clipper := AddPath clipper (clipRect context) ptSubject true in
  let clipper := AddPaths clipper (carRoads context) ptClip true in
  let clipper := AddPaths clipper (walkRoads context) ptClip true in
  let clipper := AddPaths clipper (water context) ptClip true in
  let clipper := AddPaths clipper (surfaces context) ptClip true in
  let solution := Execute clipper ctDifference pftPositive pftPositive in
  let clipper := Clear clipper in
  (set_background context solution, clipper).

(** Lines 192-205.  [layers] is the tile context when [build] returns;
    [build] moves its mesh out. *)
Definition layers (b : TerraBuilder) (tileRect : Rectangle) : TerraContext :=
  let clipper := newClipper in
  let context := newContext 1 8 in
  let context := set_clipRect context (createPathFromRect tileRect) in
  let '(context, clipper) := buildWater clipper context (waters_ b) in
  let '(context, clipper) := buildRoads clipper context (carRoads_ b) (walkRoads_ b) in
  let '(context, clipper) := buildSurfaces clipper context (surfaces_ b) in
  let '(context, clipper) := buildBackground clipper context in
  context.

Definition build (b : TerraBuilder) (tileRect : Rectangle) : Mesh :=
  mesh (layers b tileRect).

(** *** What each stage asks of the engine

    The operations the stages execute, written as single calls of the
    engine on the list of paths added; [c] is what the clipper holds when
    the stage starts.  Part II proves that the stages compute them. *)

(** The intersection [clipByRect] asks for, on a clipper holding [c]. *)
Definition rectIntersection (c : Clipper) (rect : Path) (subjects : Paths) : Paths :=
  clip ctIntersection defaultFillType defaultFillType
       (c ++ tagged ptSubject true subjects ++ [mkAdded rect ptClip true]).

(** The offset polygons of one road class, from a cleared offsetter. *)
Definition offsetClass (r : Z * MeshRegions) : Paths :=
  inflate (map (fun p => mkOffsetAdded p jtMiter etOpenSquare) (buildPaths (snd r)))
          (Double.of_int (fst r)).

(** The union [buildOffsetSolution] asks for. *)
Definition roadUnion (c : Clipper) (roads : RoadMap) : Paths :=
  clip ctUnion pftPositive pftPositive
       (c ++ tagged ptSubject true (flat_map offsetClass roads)).

(** [clipRoads]: the difference against the committed water, then the
    intersection with the clip rectangle. *)
Definition waterDifference (c : Clipper) (water0 roads : Paths) : Paths :=
  clip ctDifference pftPositive pftPositive
       (c ++ tagged ptClip true water0 ++ tagged ptSubject true roads).

(** [buildWater]. *)
Definition waterUnion (c : Clipper) (regions : MeshRegions) : Paths :=
  clip ctUnion defaultFillType defaultFillType
       (c ++ tagged ptSubject true (map regionPath regions)).

(** [buildRoads]. *)
Definition extrusion (carRoadPaths walkRoadsPaths : Paths) : Paths :=
  clip ctDifference defaultFillType defaultFillType
       (tagged ptClip true carRoadPaths ++ tagged ptSubject true walkRoadsPaths).

(** [buildSurfaces]: one entry. *)
Definition surfacePatch (c : Clipper) (ctx : TerraContext) (regions : MeshRegions) : Paths :=
  let surfacesUnion :=
    clip ctUnion defaultFillType defaultFillType
         (c ++ tagged ptSubject true (buildPaths regions)) in
  let result :=
    clip ctDifference pftPositive pftPositive
         (tagged ptClip true (carRoads ctx) ++ tagged ptClip true (walkRoads ctx) ++
          tagged ptClip true (water ctx) ++ tagged ptClip true (surfaces ctx) ++
          tagged ptSubject true surfacesUnion) in
  rectIntersection newClipper (clipRect ctx) result.

(** [buildBackground]. *)
Definition backgroundDifference (c : Clipper) (ctx : TerraContext) : Paths :=
  clip ctDifference pftPositive pftPositive
       (c ++ [mkAdded (clipRect ctx) ptSubject true] ++
        tagged ptClip true (carRoads ctx) ++ tagged ptClip true (walkRoads ctx) ++
        tagged ptClip true (water ctx) ++ tagged ptClip true (surfaces ctx)).

(** The stages as functions of the context, run on a cleared clipper. *)
Definition commitWater (ctx : TerraContext) (regions : MeshRegions) : TerraContext :=
  set_water ctx (rectIntersection newClipper (clipRect ctx) (waterUnion newClipper regions)).

Definition commitRoads (ctx : TerraContext) (carMap walkMap : RoadMap) : TerraContext :=
  let carRoadPaths := roadUnion newClipper carMap in
  let walkRoadsPaths := roadUnion newClipper walkMap in
  let extrudedWalkRoads := extrusion carRoadPaths walkRoadsPaths in
  let cars := rectIntersection newClipper (clipRect ctx)
                (waterDifference newClipper (water ctx) carRoadPaths) in
  let walks := rectIntersection newClipper (clipRect ctx)
                 (waterDifference newClipper (water ctx) extrudedWalkRoads) in
  set_walkRoads (set_carRoads ctx cars) walks.

Definition commitSurface (ctx : TerraContext) (entry : Z * MeshRegions) : TerraContext :=
  set_surfaces ctx (surfaces ctx ++ surfacePatch newClipper ctx (snd entry)).

Definition commitBackground (ctx : TerraContext) : TerraContext :=
  set_background ctx (backgroundDifference newClipper ctx).

End WithEngine.

(** What no stage writes: the clip rectangle, the splitter and the mesh. *)
Definition sameFrame (ctx ctx' : TerraContext) : Prop :=
  clipRect ctx' = clipRect ctx /\ splitter ctx' = splitter ctx /\ mesh ctx' = mesh ctx.

(** The context with another splitter, and a stage's result with it. *)
Definition set_splitter (ctx : TerraContext) (s : LineGridSplitter) : TerraContext :=
  mkContext (clipRect ctx) (water ctx) (carRoads ctx) (walkRoads ctx) (surfaces ctx)
            (background ctx) s (mesh ctx).

Definition withSplitter (s : LineGridSplitter) (st : TerraContext * Clipper)
  : TerraContext * Clipper :=
  (set_splitter (fst st) s, snd st).

(** *** Inputs of the worked scenarios *)

(** The axis-aligned square with corners (a,b) and (c,d), counter-clockwise. *)
Definition square (a b c d : float) : MeshRegion :=
  mkMeshRegion [mkPoint a b; mkPoint c b; mkPoint c d; mkPoint a d].

Definition noSurfaces : SurfaceMap.t MeshRegions := SurfaceMap.empty MeshRegions.

(** A builder holding a single water square (0,0)-(5,5) and nothing else. *)
Definition waterOnly : TerraBuilder := mkBuilder [square 0 0 5 5] [] [] noSurfaces.

(** Modelled from the spec: the Grid Snapper.  Its source
    ([terrain/LineGridSplitter.hpp]) is not at hand; the specification
    describes it as configured with a cell size and a coordinate rounding
    precision, and as mapping near-equal coordinates to identical ones.
    [snapPoint] rounds both coordinates to [roundDigitCount] decimal digits. *)
Definition quantize (digits : Z) (v : float) : float :=
  let unit := Double.of_int (10 ^ digits) in
  match Double.floor (PrimFloat.add (PrimFloat.mul v unit) 0.5) with
  | Some n => PrimFloat.div (Double.of_int n) unit
  | None => v
  end.

Definition snapPoint (s : LineGridSplitter) (p : Point) : Point :=
  mkPoint (quantize (roundDigitCount s) (x p)) (quantize (roundDigitCount s) (y p)).

End Terra.

(* ================================================================== *)
(** ** [core/src/builders/poi/TreeBuilder.cpp]: trees along a way *)

Module Tree.

Record GeoCoordinate := mkGeo { latitude : float; longitude : float }.
Record Vector3 := mkVector3 { v_x : float; v_y : float; v_z : float }.
(** Of a [Way] the function reads the coordinates (and passes the way on
    to the style provider and to [getMeshName]). *)
Record Way := mkWay { wayId : Z; coordinates : list GeoCoordinate }.

Definition NodeMeshNamePrefix : string := "tree:".
Definition WayMeshNamePrefix : string := "trees:".
Definition TreeStepKey : string := "tree-step".

(** What [visitWay] calls and this file does not define: the mesh type with
    its constructor and [copyMesh], the style provider and [Style::getValue],
    [getMeshName], the tree generator, [GeoUtils::distance],
    [GeoUtils::newPoint] and the elevation provider. *)
Class Collaborators := {
  Mesh : Type;
  newMesh : string -> Mesh;
  Style : Type;
  levelOfDetail : Z;
  forElement : Way -> Z -> Style;
  getValue : Style -> string -> float;
  getMeshName : string -> Way -> string;
  generate : Style -> Vector3 -> Mesh -> Mesh;
  distance : GeoCoordinate -> GeoCoordinate -> float;
  newPoint : GeoCoordinate -> GeoCoordinate -> float -> GeoCoordinate;
  getElevation : GeoCoordinate -> float;
  copyMesh : Vector3 -> Mesh -> Mesh -> Mesh
}.

(** The values [for (int j = 0; j < n; ++j)] gives to [j]. *)
Definition countUp (n : Z) : list Z := map Z.of_nat (seq 0 (Z.to_nat n)).

Section WithCollaborators.
Context {C : Collaborators}.

(** Lines 65-68: one tree. *)
Definition placeTree (treeMesh : Mesh) (p1 p2 : GeoCoordinate) (treeCount : Z)
  (mesh : Mesh) (j : Z) : Mesh :=
  let position :=
    newPoint p1 p2 (PrimFloat.div (Double.of_int j) (Double.of_int treeCount)) in
  let elevation := getElevation position in
  copyMesh (mkVector3 (longitude position) elevation (latitude position)) treeMesh mesh.

(** Lines 61-69: one segment. *)
Definition placeSegment (treeMesh : Mesh) (treeStepInMeters : float)
  (p1 p2 : GeoCoordinate) (mesh : Mesh) : Mesh :=
  let distanceInMeters := distance p1 p2 in
  let treeCount := Double.to_signed 32 (PrimFloat.div distanceInMeters treeStepInMeters) in
  fold_left (placeTree treeMesh p1 p2 treeCount) (countUp treeCount) mesh.

(** Lines 57-70: the body of the outer loop at index [i]; [None] when an
    index is out of the vector's range. *)
Definition segmentStep (treeMesh : Mesh) (treeStepInMeters : float)
  (coords : list GeoCoordinate) (acc : option Mesh) (i : nat) : option Mesh :=
  match acc, nth_error coords i, nth_error coords (S i) with
  | Some mesh, Some p1, Some p2 => Some (placeSegment treeMesh treeStepInMeters p1 p2 mesh)
  | _, _, _ => None
  end.

(** Lines 44-73.  The result is the mesh handed to the mesh callback.  On
    a way without coordinates [size() - 1] wraps around and the loop reads
    past the empty vector: [None]. *)
Definition visitWay (way : Way) : option Mesh :=
  let treeMesh := newMesh "" in
  let mesh := newMesh (getMeshName WayMeshNamePrefix way) in
  let style := forElement way levelOfDetail in
  let treeMesh := generate style (mkVector3 0 0 0) treeMesh in
  let treeStepInMeters := getValue style TreeStepKey in
  match coordinates way with
  | [] => None
  | _ :: _ =>
      fold_left (segmentStep treeMesh treeStepInMeters (coordinates way))
                (seq 0 (length (coordinates way) - 1)) (Some mesh)
  end.

(** *** The words of the claim *)

(** The number of trees of a segment, as the claim words it: the floor of
    the quotient the code computes. *)
Definition floorCount (step : float) (pp : GeoCoordinate * GeoCoordinate) : option Z :=
  Double.floor (PrimFloat.div (distance (fst pp) (snd pp)) step).

(** The conversion to [int] is defined on a segment: the quotient is finite
    and its floor is a non-negative [int]. *)
Definition countDefined (step : float) (pp : GeoCoordinate * GeoCoordinate) : Prop :=
  exists k, floorCount step pp = Some k /\ 0 <= k < 2 ^ 31.

End WithCollaborators.

(** Each point of a list with its successor. *)
Definition consecutive {A : Type} (l : list A) : list (A * A) := combine l (tl l).

(** *** Concrete collaborators

    Meshes are lists of the positions copied to; the distance is the
    difference in latitude, [newPoint] interpolates linearly, the
    elevation is zero and the step is 1. *)

#[export] Instance listCollaborators : Collaborators := {|
  Mesh := list Vector3;
  newMesh := fun _ => [];
  Style := unit;
  levelOfDetail := 16;
  forElement := fun _ _ => tt;
  getValue := fun _ _ => 1%float;
  getMeshName := fun prefix _ => prefix;
  generate := fun _ _ m => m;
  distance := fun p1 p2 => PrimFloat.abs (PrimFloat.sub (latitude p2) (latitude p1));
  newPoint := fun p1 p2 t =>
    mkGeo (PrimFloat.add (latitude p1)
             (PrimFloat.mul (PrimFloat.sub (latitude p2) (latitude p1)) t))
          (PrimFloat.add (longitude p1)
             (PrimFloat.mul (PrimFloat.sub (longitude p2) (longitude p1)) t));
  getElevation := fun _ => 0%float;
  copyMesh := fun v _ dst => dst ++ [v]
|}.

End Tree.

(* ================================================================== *)
(** ** The executable engine with another default fill rule *)

Module LatticeMore.
Import ClipperLib Lattice.

(** [Lattice.engine] with the non-zero rule as default of [Execute]. *)
Definition nonZeroEngine : Engine := {|
  clip := latticeClip;
  defaultFillType := pftNonZero;
  inflate := fun added _ => map offsetPath added;
  Area := fun _ => 0%float
|}.

End LatticeMore.

(* ================================================================== *)
(** ** Further inputs for the tree builder *)

Module TreeMore.
Import Tree.

(** The integer the quotient of a segment truncates to, before the range
    check of the conversion to [int]. *)
Definition truncatedCount {C : Collaborators} (step : float)
  (pp : GeoCoordinate * GeoCoordinate) : option Z :=
  Double.truncate (PrimFloat.div (distance (fst pp) (snd pp)) step).

(** The concrete collaborators of [Tree.listCollaborators] with a negative
    tree step: the style yields -1. *)
Definition backwardCollaborators : Collaborators := {|
  Mesh := list Vector3;
  newMesh := fun _ => [];
  Style := unit;
  levelOfDetail := 16;
  forElement := fun _ _ => tt;
  getValue := fun _ _ => (-1)%float;
  getMeshName := fun prefix _ => prefix;
  generate := fun _ _ m => m;
  distance := fun p1 p2 => PrimFloat.abs (PrimFloat.sub (latitude p2) (latitude p1));
  newPoint := fun p1 p2 t =>
    mkGeo (PrimFloat.add (latitude p1)
             (PrimFloat.mul (PrimFloat.sub (latitude p2) (latitude p1)) t))
          (PrimFloat.add (longitude p1)
             (PrimFloat.mul (PrimFloat.sub (longitude p2) (longitude p1)) t));
  getElevation := fun _ => 0%float;
  copyMesh := fun v _ dst => dst ++ [v]
|}.

End TreeMore.

(* ================================================================== *)
(** * Part II: properties *)

(* ================================================================== *)
(** ** The clipper objects *)

Module ClipperFacts.
Import ClipperLib.

Lemma AddPaths_tagged (c : Clipper) (ps : Paths) (pt : PolyType) (closed : bool) :
  AddPaths c ps pt closed = c ++ tagged pt closed ps.
Proof.
  unfold AddPaths, AddPath, tagged.
  revert c; induction ps as [|p ps IH]; intros c; simpl.
  - now rewrite app_nil_r.
  - rewrite IH, <- app_assoc. reflexivity.
Qed.

Lemma OffsetAddPaths_app (o : ClipperOffset) (ps : Paths) (jt : JoinType) (et : EndType) :
  OffsetAddPaths o ps jt et = o ++ map (fun p => mkOffsetAdded p jt et) ps.
Proof.
  unfold OffsetAddPaths.
  revert o; induction ps as [|p ps IH]; intros o; simpl.
  - now rewrite app_nil_r.
  - rewrite IH, <- app_assoc. reflexivity.
Qed.

Lemma subjectsOf_app (a b : list Added) : subjectsOf (a ++ b) = subjectsOf a ++ subjectsOf b.
Proof. unfold subjectsOf. now rewrite filter_app, map_app. Qed.

Lemma clipsOf_app (a b : list Added) : clipsOf (a ++ b) = clipsOf a ++ clipsOf b.
Proof. unfold clipsOf. now rewrite filter_app, map_app. Qed.

Lemma subjectsOf_tagged (pt : PolyType) (closed : bool) (ps : Paths) :
  subjectsOf (tagged pt closed ps) = match pt with ptSubject => ps | ptClip => [] end.
Proof.
  unfold subjectsOf, tagged. induction ps as [|q ps IH]; destruct pt; simpl in *; congruence.
Qed.

Lemma clipsOf_tagged (pt : PolyType) (closed : bool) (ps : Paths) :
  clipsOf (tagged pt closed ps) = match pt with ptSubject => [] | ptClip => ps end.
Proof.
  unfold clipsOf, tagged. induction ps as [|q ps IH]; destruct pt; simpl in *; congruence.
Qed.

End ClipperFacts.

(* ================================================================== *)
(** ** The executable engine meets the contract *)

Module LatticeFacts.
Import ClipperLib Lattice.

Lemma fills_zero (f : PolyFillType) : fills f 0 = false.
Proof. now destruct f. Qed.

Lemma fills_one (f : PolyFillType) : f <> pftNegative -> fills f 1 = true.
Proof. destruct f; simpl; intros H; try reflexivity; now elim H. Qed.

Lemma selectsb_spec (ct : ClipType) (s c : bool) :
  selectsb ct s c = true <-> selects ct (s = true) (c = true).
Proof. destruct ct, s, c; simpl; intuition congruence. Qed.

Lemma selectsb_false (ct : ClipType) : selectsb ct false false = false.
Proof. now destruct ct. Qed.

Lemma covered_in (f : PolyFillType) (ps : Paths) (p : IntPoint) :
  covered f ps p = true -> In p (concat ps).
Proof.
  unfold covered, occurrences. intros H.
  apply (count_occ_In IntPoint_eq_dec).
  destruct (count_occ IntPoint_eq_dec (concat ps) p); [|lia].
  now rewrite fills_zero in H.
Qed.

Lemma in_subjects (added : list Added) (p : IntPoint) :
  In p (concat (subjectsOf added)) -> In p (concat (map addedPath added)).
Proof.
  unfold subjectsOf. rewrite !in_concat. intros (l & Hl & Hp).
  exists l; split; [|exact Hp].
  apply in_map_iff in Hl as (a & <- & Ha). apply filter_In in Ha as [Ha _].
  now apply in_map.
Qed.

Lemma in_clips (added : list Added) (p : IntPoint) :
  In p (concat (clipsOf added)) -> In p (concat (map addedPath added)).
Proof.
  unfold clipsOf. rewrite !in_concat. intros (l & Hl & Hp).
  exists l; split; [|exact Hp].
  apply in_map_iff in Hl as (a & <- & Ha). apply filter_In in Ha as [Ha _].
  now apply in_map.
Qed.

Lemma covered_once (f : PolyFillType) (l : Path) (p : IntPoint) :
  f <> pftNegative -> NoDup l -> (covered f [l] p = true <-> In p l).
Proof.
  intros Hf Hnd. unfold covered, occurrences. simpl. rewrite app_nil_r.
  split.
  - intros H. apply (count_occ_In IntPoint_eq_dec).
    destruct (count_occ IntPoint_eq_dec l p); [|lia]. now rewrite fills_zero in H.
  - intros H. rewrite (proj1 (NoDup_count_occ' IntPoint_eq_dec l) Hnd p H).
    now apply fills_one.
Qed.

Lemma latticeClip_sound ct sf cf added f p :
  f <> pftNegative ->
  (covered f (latticeClip ct sf cf added) p = true <->
   selects ct (covered sf (subjectsOf added) p = true) (covered cf (clipsOf added) p = true)).
Proof.
  intros Hf. unfold latticeClip.
  rewrite covered_once; [|exact Hf|apply NoDup_filter, NoDup_nodup].
  rewrite filter_In, nodup_In, selectsb_spec.
  split; [tauto|]. intros H; split; [|exact H].
  apply selectsb_spec in H.
  destruct (covered sf (subjectsOf added) p) eqn:Hs.
  - apply in_subjects. eapply covered_in; eassumption.
  - destruct (covered cf (clipsOf added) p) eqn:Hc.
    + apply in_clips. eapply covered_in; eassumption.
    + now rewrite selectsb_false in H.
Qed.

#[export] Instance sound : Sound engine IntPoint.
Proof.
  refine {| filled := fun f ps p => covered f ps p = true |}.
  - intros. now apply latticeClip_sound.
  - discriminate.
Defined.

End LatticeFacts.

(* ================================================================== *)
(** ** The terrain builder *)

Module TerraProps.
Import ClipperLib ClipperFacts Terra.

(** *** The conversion loops in closed form *)

Lemma push_back_loop {A B : Type} (f : A -> B) (l : list A) (init : list B) :
  fold_left (fun acc a => acc ++ [f a]) l init = init ++ map f l.
Proof.
  revert init; induction l as [|a l IH]; intros init; simpl.
  - now rewrite app_nil_r.
  - rewrite IH, <- app_assoc. reflexivity.
Qed.

Lemma regionPath_eq (region : MeshRegion) :
  regionPath region =
  repeat defaultIntPoint (length (points region)) ++ map toIntPoint (points region).
Proof. unfold regionPath. apply push_back_loop. Qed.

Lemma buildPaths_eq (regions : MeshRegions) :
  buildPaths regions = repeat [] (length regions) ++ map regionPath regions.
Proof. unfold buildPaths. apply push_back_loop. Qed.

Lemma createPathFromRect_eq (r : Rectangle) :
  createPathFromRect r = repeat (mkIntPoint (scaled (xMin r)) (scaled (yMin r))) 4.
Proof. reflexivity. Qed.

(** *** The stages compute the operations of Part I *)

Section Stages.
Context {E : Engine}.

Lemma clipByRect_eq (c : Clipper) (rect : Path) (subjects : Paths) :
  clipByRect c rect subjects = (rectIntersection c rect subjects, newClipper).
Proof.
  unfold clipByRect, rectIntersection, ExecuteDefault, AddPath, Clear, newClipper.
  rewrite AddPaths_tagged, <- app_assoc. reflexivity.
Qed.

Lemma offset_loop (roads : RoadMap) (c : Clipper) :
  fold_left offsetRoadClass roads (c, newClipperOffset) =
  (c ++ tagged ptSubject true (flat_map offsetClass roads), newClipperOffset).
Proof.
  revert c; induction roads as [|r roads IH]; intros c; simpl.
  - now rewrite app_nil_r.
  - unfold OffsetExecute, OffsetClear. rewrite OffsetAddPaths_app, AddPaths_tagged.
    simpl. fold newClipperOffset. fold (offsetClass r). rewrite IH.
    unfold tagged. now rewrite map_app, app_assoc.
Qed.

Lemma buildOffsetSolution_eq (c : Clipper) (roads : RoadMap) :
  buildOffsetSolution c newClipperOffset roads =
  (roadUnion c roads, newClipper, newClipperOffset).
Proof.
  unfold buildOffsetSolution. rewrite offset_loop. reflexivity.
Qed.

Lemma clipRoads_eq (c : Clipper) (ctx : TerraContext) (roads : Paths) :
  clipRoads c ctx roads =
  (rectIntersection newClipper (clipRect ctx) (waterDifference c (water ctx) roads),
   newClipper).
Proof.
  unfold clipRoads, waterDifference, Execute, Clear.
  rewrite clipByRect_eq, !AddPaths_tagged, <- app_assoc. reflexivity.
Qed.

Lemma water_loop (regions : MeshRegions) (c : Clipper) :
  fold_left (fun c' region => AddPath c' (regionPath region) ptSubject true) regions c =
  c ++ tagged ptSubject true (map regionPath regions).
Proof.
  revert c; induction regions as [|r regions IH]; intros c; simpl.
  - now rewrite app_nil_r.
  - rewrite IH. unfold AddPath. now rewrite <- app_assoc.
Qed.

Lemma buildWater_eq (c : Clipper) (ctx : TerraContext) (regions : MeshRegions) :
  buildWater c ctx regions =
  (set_water ctx (rectIntersection newClipper (clipRect ctx) (waterUnion c regions)),
   newClipper).
Proof.
  unfold buildWater, waterUnion, ExecuteDefault, Clear.
  rewrite water_loop, clipByRect_eq. reflexivity.
Qed.

Lemma buildRoads_eq (ctx : TerraContext) (carMap walkMap : RoadMap) :
  buildRoads newClipper ctx carMap walkMap =
  (let carRoadPaths := roadUnion newClipper carMap in
   let walkRoadsPaths := roadUnion newClipper walkMap in
   let extrudedWalkRoads := extrusion carRoadPaths walkRoadsPaths in
   let cars := rectIntersection newClipper (clipRect ctx)
                 (waterDifference newClipper (water ctx) carRoadPaths) in
   let walks := rectIntersection newClipper (clipRect ctx)
                  (waterDifference newClipper (water ctx) extrudedWalkRoads) in
   set_walkRoads (set_carRoads ctx cars) walks,
   newClipper).
Proof.
  unfold buildRoads. rewrite !buildOffsetSolution_eq.
  unfold ExecuteDefault, Clear. rewrite !AddPaths_tagged.
  fold newClipper. rewrite !clipRoads_eq. reflexivity.
Qed.

Lemma buildSurface_eq (c : Clipper) (ctx : TerraContext) (entry : Z * MeshRegions) :
  buildSurface (ctx, c) entry =
  (set_surfaces ctx (surfaces ctx ++ surfacePatch c ctx (snd entry)), newClipper).
Proof.
  unfold buildSurface, surfacePatch, Execute, ExecuteDefault, Clear.
  rewrite !AddPaths_tagged, clipByRect_eq. simpl. rewrite <- !app_assoc. reflexivity.
Qed.

Lemma buildBackground_eq (c : Clipper) (ctx : TerraContext) :
  buildBackground c ctx = (set_background ctx (backgroundDifference c ctx), newClipper).
Proof.
  unfold buildBackground, backgroundDifference, Execute, Clear, AddPath.
  rewrite !AddPaths_tagged, <- !app_assoc. reflexivity.
Qed.

Lemma surfaces_loop (entries : list (Z * MeshRegions)) (ctx : TerraContext) :
  fold_left buildSurface entries (ctx, newClipper) =
  (fold_left commitSurface entries ctx, newClipper).
Proof.
  revert ctx; induction entries as [|e entries IH]; intros ctx; cbn [fold_left].
  - reflexivity.
  - rewrite buildSurface_eq. apply IH.
Qed.

Lemma buildSurfaces_eq (ctx : TerraContext) (m : SurfaceMap.t MeshRegions) :
  buildSurfaces newClipper ctx m =
  (fold_left commitSurface (SurfaceMap.elements m) ctx, newClipper).
Proof. unfold buildSurfaces. apply surfaces_loop. Qed.

Lemma layers_eq (b : TerraBuilder) (r : Rectangle) :
  layers b r =
  commitBackground
    (fold_left commitSurface (SurfaceMap.elements (surfaces_ b))
       (commitRoads
          (commitWater (set_clipRect (newContext 1 8) (createPathFromRect r)) (waters_ b))
          (carRoads_ b) (walkRoads_ b))).
Proof.
  unfold layers.
  rewrite buildWater_eq. cbv iota beta zeta.
  rewrite buildRoads_eq. cbv iota beta zeta.
  rewrite buildSurfaces_eq. cbv iota beta zeta.
  rewrite buildBackground_eq. reflexivity.
Qed.

(** *** What no stage writes *)

Lemma sameFrame_refl (ctx : TerraContext) : sameFrame ctx ctx.
Proof. repeat split. Qed.

Lemma sameFrame_trans (a b c : TerraContext) :
  sameFrame a b -> sameFrame b c -> sameFrame a c.
Proof.
  unfold sameFrame. intros (H1 & H2 & H3) (K1 & K2 & K3).
  repeat split; congruence.
Qed.

Lemma commitWater_frame ctx regions : sameFrame ctx (commitWater ctx regions).
Proof. repeat split. Qed.

Lemma commitRoads_frame ctx carMap walkMap : sameFrame ctx (commitRoads ctx carMap walkMap).
Proof. repeat split. Qed.

Lemma commitSurface_frame ctx entry : sameFrame ctx (commitSurface ctx entry).
Proof. repeat split. Qed.

Lemma commitSurfaces_frame entries ctx :
  sameFrame ctx (fold_left commitSurface entries ctx).
Proof.
  revert ctx; induction entries as [|e entries IH]; intros ctx; simpl.
  - apply sameFrame_refl.
  - eapply sameFrame_trans; [apply commitSurface_frame | apply IH].
Qed.

Lemma commitBackground_frame ctx : sameFrame ctx (commitBackground ctx).
Proof. repeat split. Qed.

Lemma layers_frame (b : TerraBuilder) (r : Rectangle) :
  sameFrame (set_clipRect (newContext 1 8) (createPathFromRect r)) (layers b r).
Proof.
  rewrite layers_eq.
  eapply sameFrame_trans; [apply commitWater_frame|].
  eapply sameFrame_trans; [apply commitRoads_frame|].
  eapply sameFrame_trans; [apply commitSurfaces_frame|].
  apply commitBackground_frame.
Qed.

(** *** The contract on the lists the stages add *)

(** The contract read on the added lists the stages build. *)
Lemma rect_intersection_sound {point : Type} {S : Sound E point}
  (rect : Path) (subjects : Paths) (f : PolyFillType) (p : point) :
  f <> pftNegative ->
  filled f (rectIntersection newClipper rect subjects) p ->
  filled defaultFillType subjects p /\ filled defaultFillType [rect] p.
Proof.
  intros Hf H. unfold rectIntersection, newClipper in H. cbn [app] in H.
  apply clip_sound in H; [|exact Hf].
  rewrite subjectsOf_app, clipsOf_app, subjectsOf_tagged, clipsOf_tagged in H.
  cbn in H. now rewrite app_nil_r in H.
Qed.

Lemma water_difference_sound {point : Type} {S : Sound E point}
  (water0 roads : Paths) (f : PolyFillType) (p : point) :
  f <> pftNegative ->
  filled f (waterDifference newClipper water0 roads) p ->
  filled pftPositive roads p /\ ~ filled pftPositive water0 p.
Proof.
  intros Hf H. unfold waterDifference, newClipper in H. cbn [app] in H.
  apply clip_sound in H; [|exact Hf].
  rewrite subjectsOf_app, clipsOf_app, !subjectsOf_tagged, !clipsOf_tagged in H.
  cbn in H. now rewrite app_nil_r in H.
Qed.

Lemma extrusion_sound {point : Type} {S : Sound E point}
  (cars walks : Paths) (f : PolyFillType) (p : point) :
  f <> pftNegative ->
  filled f (extrusion cars walks) p ->
  filled defaultFillType walks p /\ ~ filled defaultFillType cars p.
Proof.
  intros Hf H. unfold extrusion in H.
  apply clip_sound in H; [|exact Hf].
  rewrite subjectsOf_app, clipsOf_app, !subjectsOf_tagged, !clipsOf_tagged in H.
  cbn in H. now rewrite app_nil_r in H.
Qed.

(** A solution of the engine covers the same points under every rule but
    the negative one. *)
Lemma solution_fill_independent {point : Type} {S : Sound E point}
  ct sf cf added (f g : PolyFillType) (p : point) :
  f <> pftNegative -> g <> pftNegative ->
  filled f (clip ct sf cf added) p -> filled g (clip ct sf cf added) p.
Proof.
  intros Hf Hg H. apply clip_sound; [exact Hg|]. apply clip_sound in H; assumption.
Qed.

(** *** The mesh filter and the splitter *)

(** The threshold is the double nearest to 1/1000: it is m * 2^e, and
    1000 * m differs from 2^(-e) by at most 500. *)
Remark areaThreshold_nearest :
  exists m e, Prim2SF areaThreshold = S754_finite false m e /\
              Z.abs (1000 * Z.pos m - 2 ^ (- e)) <= 500.
Proof.
  exists 4611686018427388%positive, (-62). split; [reflexivity|].
  vm_compute. discriminate.
Qed.

Lemma populateMeshWith_nil todo (m : Mesh) (region : MeshRegion) :
  populateMeshWith todo m region [] = m.
Proof. reflexivity. Qed.

Lemma populateMeshWith_cons todo (m : Mesh) (region : MeshRegion) path paths :
  populateMeshWith todo m region (path :: paths) =
  populateMeshWith todo (if belowThreshold path then m else todo m region path) region paths.
Proof. reflexivity. Qed.

Lemma buildSurface_splitter s st entry :
  buildSurface (withSplitter s st) entry = withSplitter s (buildSurface st entry).
Proof. destruct st as [ctx c]. reflexivity. Qed.

Lemma buildSurfaces_splitter s entries st :
  fold_left buildSurface entries (withSplitter s st) =
  withSplitter s (fold_left buildSurface entries st).
Proof.
  revert st. induction entries as [|e entries IH]; intros st; cbn [fold_left].
  - reflexivity.
  - rewrite buildSurface_splitter. apply IH.
Qed.

Lemma buildRoads_splitter s c ctx carMap walkMap :
  buildRoads c (set_splitter ctx s) carMap walkMap =
  withSplitter s (buildRoads c ctx carMap walkMap).
Proof.
  unfold buildRoads, buildOffsetSolution.
  destruct (fold_left offsetRoadClass carMap (c, newClipperOffset)) as [c1 o1].
  destruct (fold_left offsetRoadClass walkMap (Clear c1, o1)) as [c2 o2].
  reflexivity.
Qed.

(** *** The claims *)

(** C1 (partition of the tile).  The code does not establish the
    partition: the clip rectangle [build] installs has its four vertices at
    the scaled (xMin, yMin) corner, whatever the tile's extent, and the
    committed layers of two tiles that share that corner are the same.  So
    the layers cannot cover a tile of positive area. *)
Theorem tile_rectangle_degenerate (b : TerraBuilder) (r : Rectangle) :
  clipRect (layers b r) = repeat (mkIntPoint (scaled (xMin r)) (scaled (yMin r))) 4 /\
  forall r' : Rectangle,
    xMin r' = xMin r -> yMin r' = yMin r -> layers b r' = layers b r.
Proof.
  split.
  - destruct (layers_frame b r) as (Hrect & _ & _).
    rewrite Hrect. reflexivity.
  - intros r' Hx Hy. rewrite !layers_eq, !createPathFromRect_eq, Hx, Hy.
    reflexivity.
Qed.

(** C2 (background).  [buildBackground] does ask for one positive-fill
    difference with the clip rectangle as only subject and the four other
    layers as clips; but in the scenario of the tile (0,0)-(10,10) with one
    water square that subject is the path of four coincident points at the
    origin, and the committed layers are those of the empty tile
    (0,0)-(0,0): the background is not a region of area 75. *)
Theorem background_scenario :
  let ctx := layers waterOnly (mkRectangle 0 0 10 10) in
  let o := mkIntPoint 0 0 in
  background ctx =
    clip ctDifference pftPositive pftPositive
         (mkAdded [o; o; o; o] ptSubject true ::
          tagged ptClip true (carRoads ctx) ++ tagged ptClip true (walkRoads ctx) ++
          tagged ptClip true (water ctx) ++ tagged ptClip true (surfaces ctx)) /\
  ctx = layers waterOnly (mkRectangle 0 0 0 0).
Proof.
  cbv zeta. split.
  - rewrite layers_eq. reflexivity.
  - rewrite !layers_eq, !createPathFromRect_eq. reflexivity.
Qed.

(** C3 (water stage).  What the water stage commits: the intersection with
    the clip rectangle of a union taken under the engine's default fill rule
    (the call names none), over paths that start with as many default
    points as the region has points. *)
Theorem water_stage (ctx : TerraContext) (regions : MeshRegions) :
  buildWater newClipper ctx regions =
  (set_water ctx
     (clip ctIntersection defaultFillType defaultFillType
        (tagged ptSubject true
           (clip ctUnion defaultFillType defaultFillType
              (tagged ptSubject true
                 (map (fun region =>
                         repeat defaultIntPoint (length (points region)) ++
                         map toIntPoint (points region))
                      regions))) ++
         [mkAdded (clipRect ctx) ptClip true])),
   newClipper).
Proof.
  rewrite buildWater_eq. unfold rectIntersection, waterUnion, newClipper.
  cbn [app]. rewrite (map_ext regionPath _ regionPath_eq). reflexivity.
Qed.

(** C4 (fixed-point conversion).  The converted path is twice as long as
    the region's point list: the scaled points, in order, stand behind as
    many default points; and [buildPaths] returns twice as many paths as
    there are regions, the first half empty. *)
Theorem conversion_pads (region : MeshRegion) (regions : MeshRegions) :
  regionPath region =
    repeat defaultIntPoint (length (points region)) ++ map toIntPoint (points region) /\
  length (regionPath region) = (2 * length (points region))%nat /\
  buildPaths regions = repeat [] (length regions) ++ map regionPath regions /\
  length (buildPaths regions) = (2 * length regions)%nat.
Proof.
  rewrite regionPath_eq, buildPaths_eq.
  rewrite !length_app, !repeat_length, !length_map.
  repeat split; lia.
Qed.

(** C5 (road stage).  From a cleared clipper, [buildRoads] commits
    - as car roads: (carRoadPaths minus the committed water, positive fill)
      intersected with the clip rectangle;
    - as walk roads: the same of extrudedWalkRoads, which is walkRoadsPaths
      DIFFERENCE carRoadPaths.
    Hence, for an engine that meets its contract, no point of the
    committed car roads lies in the committed water, and no point of the
    committed walk roads lies in the water, in the car-road polygons or in
    the committed car roads. *)
Theorem roads_stage {point : Type} {S : Sound E point}
  (ctx : TerraContext) (carMap walkMap : RoadMap) :
  let carRoadPaths := fst (fst (buildOffsetSolution newClipper newClipperOffset carMap)) in
  let walkRoadsPaths := fst (fst (buildOffsetSolution newClipper newClipperOffset walkMap)) in
  let extrudedWalkRoads :=
    clip ctDifference defaultFillType defaultFillType
         (tagged ptClip true carRoadPaths ++ tagged ptSubject true walkRoadsPaths) in
  let minusWater roads :=
    clip ctDifference pftPositive pftPositive
         (tagged ptClip true (water ctx) ++ tagged ptSubject true roads) in
  let inRect paths :=
    clip ctIntersection defaultFillType defaultFillType
         (tagged ptSubject true paths ++ [mkAdded (clipRect ctx) ptClip true]) in
  let ctx' := fst (buildRoads newClipper ctx carMap walkMap) in
  carRoads ctx' = inRect (minusWater carRoadPaths) /\
  walkRoads ctx' = inRect (minusWater extrudedWalkRoads) /\
  water ctx' = water ctx /\
  forall (f : PolyFillType) (p : point),
    f <> pftNegative ->
    (filled f (carRoads ctx') p -> ~ filled pftPositive (water ctx) p) /\
    (filled f (walkRoads ctx') p ->
       ~ filled pftPositive (water ctx) p /\
       ~ filled pftPositive carRoadPaths p /\
       ~ filled f (carRoads ctx') p).
Proof.
  cbv zeta. rewrite !buildOffsetSolution_eq, buildRoads_eq. cbn [fst snd].
  split; [reflexivity|]. split; [reflexivity|]. split; [reflexivity|].
  intros f p Hf.
  cbn [carRoads walkRoads set_carRoads set_walkRoads].
  pose proof (@default_not_negative E point S) as Hd.
  split.
  - intros H. apply rect_intersection_sound in H as [H _]; [|exact Hf].
    apply water_difference_sound in H as [_ H]; [exact H|exact Hd].
  - intros H. apply rect_intersection_sound in H as [H _]; [|exact Hf].
    apply water_difference_sound in H as [Hw Hnw]; [|exact Hd].
    apply extrusion_sound in Hw as [_ Hnc]; [|discriminate].
    assert (Hcar : ~ filled pftPositive (roadUnion newClipper carMap) p).
    { intros Hc. apply Hnc. unfold roadUnion in *.
      eapply solution_fill_independent; [| |exact Hc]; [discriminate|exact Hd]. }
    repeat split; [exact Hnw|exact Hcar|].
    intros Hc. apply Hcar.
    apply rect_intersection_sound in Hc as [Hc _]; [|exact Hf].
    apply water_difference_sound in Hc as [Hc _]; [exact Hc|exact Hd].
Qed.

(** C6 (surface stage).  The entries are visited in strictly ascending key
    order, and each visit commits, behind the surfaces committed so far,
    the intersection with the clip rectangle of one positive-fill
    difference whose clips are the committed car roads, walk roads, water
    and earlier surfaces.  The subject of that difference, though, is a
    union under the engine's default fill rule over the paths [buildPaths]
    returns: one empty path per region, followed by the padded paths. *)
Theorem surface_stage (m : SurfaceMap.t MeshRegions) :
  Sorted (fun a b : Z * MeshRegions => fst a < fst b) (SurfaceMap.elements m) /\
  forall (ctx : TerraContext) (key : Z) (regions : MeshRegions),
    buildSurface (ctx, newClipper) (key, regions) =
    (set_surfaces ctx
       (surfaces ctx ++
        clip ctIntersection defaultFillType defaultFillType
          (tagged ptSubject true
             (clip ctDifference pftPositive pftPositive
                (tagged ptClip true (carRoads ctx) ++ tagged ptClip true (walkRoads ctx) ++
                 tagged ptClip true (water ctx) ++ tagged ptClip true (surfaces ctx) ++
                 tagged ptSubject true
                   (clip ctUnion defaultFillType defaultFillType
                      (tagged ptSubject true
                         (repeat [] (length regions) ++ map regionPath regions))))) ++
           [mkAdded (clipRect ctx) ptClip true])),
     newClipper).
Proof.
  split.
  - exact (SurfaceMap.elements_3 m).
  - intros ctx key regions. rewrite buildSurface_eq.
    unfold surfacePatch, rectIntersection, newClipper. cbn [app snd].
    now rewrite buildPaths_eq.
Qed.

(** C7 (degenerate filtering).  Whatever is done with a polygon at the
    place the source leaves open, it is done to exactly the polygons whose
    |Area / S^2| is not below the threshold, in their order; the polygons
    below it are skipped.  (The function as it stands does nothing there,
    so it returns the mesh unchanged.) *)
Theorem populateMesh_filter (todo : Mesh -> MeshRegion -> Path -> Mesh)
  (m : Mesh) (region : MeshRegion) (paths : Paths) :
  populateMeshWith todo m region paths =
    fold_left (fun acc path => todo acc region path)
      (filter (fun path =>
                 negb (PrimFloat.ltb
                         (PrimFloat.abs (PrimFloat.div (Area path) 1e16%float))
                         areaThreshold))
              paths)
      m /\
  populateMesh m region paths = m.
Proof.
  split.
  - revert m. induction paths as [|path paths IH]; intros m.
    + reflexivity.
    + rewrite populateMeshWith_cons, IH. cbn [filter].
      change (PrimFloat.ltb (PrimFloat.abs (PrimFloat.div (Area path) 1e16%float))
                            areaThreshold)
        with (belowThreshold path).
      destruct (belowThreshold path); reflexivity.
  - unfold populateMesh. revert m. induction paths as [|path paths IH]; intros m.
    + reflexivity.
    + rewrite populateMeshWith_cons. destruct (belowThreshold path); apply IH.
Qed.

(** C8 as amended.  The coordinates scaled are the region's own, and no
    stage consults the splitter: each stage, run from a context whose
    splitter was replaced, commits what it commits otherwise; the splitter
    [build] constructs with (1, 8) reaches the end untouched. *)
Theorem splitter_never_consulted (s : LineGridSplitter) (c : Clipper) (ctx : TerraContext)
  (b : TerraBuilder) (r : Rectangle) (region : MeshRegion) :
  regionPath region =
    repeat defaultIntPoint (length (points region)) ++
    map (fun p => mkIntPoint (scaled (x p)) (scaled (y p))) (points region) /\
  buildWater c (set_splitter ctx s) (waters_ b) =
    withSplitter s (buildWater c ctx (waters_ b)) /\
  buildRoads c (set_splitter ctx s) (carRoads_ b) (walkRoads_ b) =
    withSplitter s (buildRoads c ctx (carRoads_ b) (walkRoads_ b)) /\
  buildSurfaces c (set_splitter ctx s) (surfaces_ b) =
    withSplitter s (buildSurfaces c ctx (surfaces_ b)) /\
  buildBackground c (set_splitter ctx s) = withSplitter s (buildBackground c ctx) /\
  splitter (layers b r) = mkSplitter 1 8.
Proof.
  split; [apply regionPath_eq|].
  split; [reflexivity|].
  split; [apply buildRoads_splitter|].
  split; [apply (buildSurfaces_splitter s _ (ctx, c))|].
  split; [reflexivity|].
  destruct (layers_frame b r) as (_ & Hs & _). rewrite Hs. reflexivity.
Qed.

(** C9 (returned mesh).  [build] returns the default-constructed mesh of
    the context: no stage writes the mesh. *)
Theorem build_returns_empty_mesh (b : TerraBuilder) (r : Rectangle) :
  build b r = mesh (newContext 1 8) /\
  vertices (build b r) = [] /\ triangles (build b r) = [].
Proof.
  unfold build. destruct (layers_frame b r) as (_ & _ & Hmesh).
  rewrite Hmesh. repeat split.
Qed.

End Stages.

(** *** Runs on concrete inputs *)

(** The conversion at a one-point region: the point (1,2) yields a path of
    two points. *)
Example padded_path_example :
  regionPath (mkMeshRegion [mkPoint 1 2]) =
  [mkIntPoint 0 0; mkIntPoint 100000000 200000000].
Proof. vm_compute. reflexivity. Qed.

Lemma tile_rectangle_degenerate_witness :
  layers (E := Lattice.engine) waterOnly (mkRectangle 0 0 20 20) =
  layers (E := Lattice.engine) waterOnly (mkRectangle 0 0 10 10).
Proof.
  apply (proj2 (tile_rectangle_degenerate (E := Lattice.engine)
                  waterOnly (mkRectangle 0 0 10 10))); reflexivity.
Defined.

(** The road stage on the executable engine: a car-road vertex that the
    stage commits is no vertex of the water. *)
Lemma roads_stage_witness :
  let a := mkIntPoint 100000000 100000000 in
  let ctx := set_water (set_clipRect (newContext 1 8) [a]) [[mkIntPoint 0 0]] in
  ~ filled (Sound := LatticeFacts.sound) pftPositive (water ctx) a.
Proof.
  intros a ctx.
  refine (proj1 (proj2 (proj2 (proj2
            (roads_stage (S := LatticeFacts.sound) ctx [(1, [mkMeshRegion [mkPoint 1 1]])] [])))
            pftPositive a _) _).
  - discriminate.
  - vm_compute. reflexivity.
Defined.

(** C8 as stated fails on the water region with the single point
    (2^-27, 0), built on the tile (0,0)-(1,1).  The splitter the tile
    context holds, constructed with (1, 8), rounds 2^-27 to 10^-8, which
    scales to 1; had the coordinate passed through it before the scaling,
    the converted path would end in (1, 0).  The path the code converts
    the region to ends in (0, 0), the scaled raw coordinate. *)
Lemma coordinates_not_snapped :
  let region := mkMeshRegion [mkPoint 0x1p-27 0] in
  let ctx := layers (E := Lattice.engine) (mkBuilder [region] [] [] noSurfaces)
                    (mkRectangle 0 0 1 1) in
  let snapped := map (fun p => toIntPoint (snapPoint (splitter ctx) p)) (points region) in
  regionPath region = [mkIntPoint 0 0; mkIntPoint 0 0] /\
  snapped = [mkIntPoint 1 0] /\
  regionPath region <> repeat defaultIntPoint (length (points region)) ++ snapped.
Proof.
  cbv zeta. split; [|split].
  - vm_compute. reflexivity.
  - vm_compute. reflexivity.
  - intros H. vm_compute in H. discriminate H.
Qed.

End TerraProps.

(* ================================================================== *)
(** ** The tree builder *)

Module TreeProps.
Import Tree.

Lemma floor_truncate (v : float) (k : Z) :
  Double.floor v = Some k -> 0 <= k -> Double.truncate v = Some k.
Proof.
  unfold Double.floor, Double.truncate.
  destruct (Prim2SF v) as [s|s| |s m e]; try discriminate.
  - auto.
  - intros H Hk. injection H as H. f_equal. subst k.
    destruct (0 <=? e) eqn:He.
    + destruct s; [|reflexivity].
      exfalso. apply Z.leb_le in He.
      assert (0 < 2 ^ e) by (apply Z.pow_pos_nonneg; lia).
      assert (Z.neg m * 2 ^ e < 0) by (apply Z.mul_neg_pos; lia).
      lia.
    + apply Z.leb_gt in He.
      assert (Hd : 0 < 2 ^ (- e)) by (apply Z.pow_pos_nonneg; lia).
      destruct s.
      * exfalso.
        assert (Z.neg m / 2 ^ (- e) < 0) by (apply Z.div_lt_upper_bound; lia).
        lia.
      * apply Z.quot_div_nonneg; lia.
Qed.

Lemma to_signed_floor (v : float) (k : Z) :
  Double.floor v = Some k -> 0 <= k < 2 ^ 31 -> Double.to_signed 32 v = k.
Proof.
  intros Hf Hk. unfold Double.to_signed.
  rewrite (floor_truncate v k Hf) by lia.
  change (2 ^ (32 - 1)) with (2 ^ 31).
  destruct (Z.leb_spec (- 2 ^ 31) k); [|lia].
  destruct (Z.ltb_spec k (2 ^ 31)); [reflexivity|lia].
Qed.

Lemma countUp_length (n : Z) : length (countUp n) = Z.to_nat n.
Proof. unfold countUp. now rewrite length_map, length_seq. Qed.

Lemma countUp_In (n j : Z) : In j (countUp n) <-> 0 <= j < n.
Proof.
  unfold countUp. rewrite in_map_iff. split.
  - intros (i & <- & Hi). apply in_seq in Hi. lia.
  - intros Hj. exists (Z.to_nat j). split; [lia|]. apply in_seq. lia.
Qed.

Section Placement.
Context {C : Collaborators}.

(** The outer loop visits the consecutive pairs in order and never leaves
    the vector. *)
Lemma segment_loop (treeMesh : Mesh) (step : float)
  (rest prefix : list GeoCoordinate) (a : GeoCoordinate) (mesh : Mesh) :
  fold_left (segmentStep treeMesh step (prefix ++ a :: rest))
            (seq (length prefix) (length rest)) (Some mesh) =
  Some (fold_left (fun m pp => placeSegment treeMesh step (fst pp) (snd pp) m)
                  (consecutive (a :: rest)) mesh).
Proof.
  revert prefix a mesh.
  induction rest as [|b rest IH]; intros prefix a mesh.
  - reflexivity.
  - assert (H1 : nth_error (prefix ++ a :: b :: rest) (length prefix) = Some a).
    { rewrite nth_error_app2 by lia. now rewrite Nat.sub_diag. }
    assert (H2 : nth_error (prefix ++ a :: b :: rest) (S (length prefix)) = Some b).
    { rewrite nth_error_app2 by lia.
      now replace (S (length prefix) - length prefix)%nat with 1%nat by lia. }
    cbn [length seq fold_left]. unfold segmentStep at 2. rewrite H1, H2.
    replace (S (length prefix)) with (length (prefix ++ [a]))
      by (rewrite length_app; simpl; lia).
    replace (prefix ++ a :: b :: rest) with ((prefix ++ [a]) ++ b :: rest)
      by (now rewrite <- app_assoc).
    rewrite IH. reflexivity.
Qed.

Lemma placeSegment_floor (treeMesh : Mesh) (step : float)
  (pp : GeoCoordinate * GeoCoordinate) (k : Z) (mesh : Mesh) :
  floorCount step pp = Some k -> 0 <= k < 2 ^ 31 ->
  placeSegment treeMesh step (fst pp) (snd pp) mesh =
  fold_left (placeTree treeMesh (fst pp) (snd pp) k) (countUp k) mesh.
Proof.
  intros Hf Hk. unfold placeSegment.
  now rewrite (to_signed_floor _ k Hf Hk).
Qed.

(** C10 as amended (trees along a way).  On a way with coordinates, where the
    conversion of each segment's quotient to [int] is defined, [visitWay]
    hands the callback the mesh named after the way to which the tree mesh
    was copied, segment after segment, at [newPoint p1 p2 (j / k)] for
    j = 0 .. k - 1, where k is the floor of distance(p1, p2) / treeStep: k
    copies per segment, the numerators starting at 0 and staying below k,
    and none for a segment whose k is 0. *)
Theorem visitWay_places (way : Way) :
  let style := forElement way levelOfDetail in
  let step := getValue style TreeStepKey in
  let treeMesh := generate style (mkVector3 0 0 0) (newMesh "") in
  let count pp := match floorCount step pp with Some k => k | None => 0 end in
  let positions pp :=
    map (fun j => newPoint (fst pp) (snd pp)
                    (PrimFloat.div (Double.of_int j) (Double.of_int (count pp))))
        (countUp (count pp)) in
  let plant mesh position :=
    copyMesh (mkVector3 (longitude position) (getElevation position) (latitude position))
             treeMesh mesh in
  coordinates way <> [] ->
  Forall (countDefined step) (consecutive (coordinates way)) ->
  visitWay way =
    Some (fold_left plant (flat_map positions (consecutive (coordinates way)))
                    (newMesh (getMeshName WayMeshNamePrefix way))) /\
  Forall (fun pp =>
            length (positions pp) = Z.to_nat (count pp) /\
            (forall j, In j (countUp (count pp)) <-> 0 <= j < count pp) /\
            (count pp = 0 -> positions pp = []))
         (consecutive (coordinates way)).
Proof.
  intros style step treeMesh count positions plant Hne Hdef. split.
  - unfold visitWay. fold style. fold step. fold treeMesh.
    destruct (coordinates way) as [|a rest] eqn:Hc; [contradiction|].
    change (length (a :: rest) - 1)%nat with (length rest - 0)%nat.
    rewrite Nat.sub_0_r.
    rewrite (segment_loop treeMesh step rest [] a). f_equal.
    generalize (newMesh (getMeshName WayMeshNamePrefix way)) as mesh.
    induction Hdef as [|pp pps (k & Hk & Hr) _ IH]; intros mesh.
    + reflexivity.
    + cbn [flat_map fold_left]. rewrite fold_left_app, <- IH. f_equal.
      rewrite (placeSegment_floor _ _ pp k _ Hk Hr).
      unfold positions, count. rewrite Hk.
      generalize (countUp k) as js. intros js. revert mesh.
      induction js as [|j js IHj]; intros mesh; [reflexivity|].
      cbn [map fold_left]. apply IHj.
  - apply Forall_forall. intros pp _. unfold positions.
    rewrite length_map, countUp_length.
    split; [reflexivity|]. split; [intros j; apply countUp_In|].
    intros H0. now rewrite H0.
Qed.

End Placement.

(** Latitudes 0, 2.5 and 2.75: two trees on the first segment (at 0 and
    at 1.25, none at 2.5) and none on the second, which is shorter than the
    step. *)
Lemma visitWay_places_witness :
  visitWay (mkWay 1 [mkGeo 0 0; mkGeo 2.5 0; mkGeo 2.75 0]) =
  Some [mkVector3 0 0 0; mkVector3 0 0 1.25].
Proof.
  refine (proj1 (visitWay_places (mkWay 1 [mkGeo 0 0; mkGeo 2.5 0; mkGeo 2.75 0]) _ _)).
  - discriminate.
  - repeat constructor.
    + exists 2. split; [vm_compute; reflexivity|lia].
    + exists 0. split; [vm_compute; reflexivity|lia].
Defined.

(** C10 as stated fails on the way from latitude 0 to latitude 2^31 with
    tree step 1 (two coordinates, a positive step): the floor of
    distance / treeStep is 2147483648, which is no [int], so the conversion
    does not yield it; the loop runs zero times and the callback gets a
    mesh with no copy, not 2147483648 of them. *)
Lemma visitWay_count_overflow :
  let p1 := mkGeo 0 0 in
  let p2 := mkGeo 2147483648 0 in
  let way := mkWay 1 [p1; p2] in
  let step :=
    @getValue listCollaborators
      (@forElement listCollaborators way (@levelOfDetail listCollaborators)) TreeStepKey in
  (2 <= length (coordinates way))%nat /\
  PrimFloat.ltb 0 step = true /\
  floorCount (C := listCollaborators) step (p1, p2) = Some 2147483648 /\
  visitWay (C := listCollaborators) way = Some [] /\
  ~ (exists copies : list Vector3,
       visitWay (C := listCollaborators) way = Some copies /\
       Z.of_nat (length copies) = 2147483648).
Proof.
  cbv zeta.
  assert (Hrun : visitWay (C := listCollaborators)
                   (mkWay 1 [mkGeo 0 0; mkGeo 2147483648 0]) = Some [])
    by (vm_compute; reflexivity).
  split; [cbn; lia|]. split; [vm_compute; reflexivity|].
  split; [vm_compute; reflexivity|]. split; [exact Hrun|].
  intros (copies & Hcopies & Hlen). rewrite Hrun in Hcopies.
  injection Hcopies as <-. discriminate Hlen.
Qed.

End TreeProps.

(* ================================================================== *)
(** ** The terrain builder: frames, clipper hygiene and the contract *)

Module TerraExtra.
Import ClipperLib ClipperFacts Terra TerraProps.

Section Stages.
Context {E : Engine}.

Lemma set_surfaces_same (ctx : TerraContext) :
  set_surfaces ctx (surfaces ctx ++ []) = ctx.
Proof. destruct ctx. unfold set_surfaces. cbn. now rewrite app_nil_r. Qed.

Lemma surfaces_loop_appends (entries : list (Z * MeshRegions)) (ctx : TerraContext)
  (c : Clipper) :
  exists added,
    fst (fold_left buildSurface entries (ctx, c)) = set_surfaces ctx (surfaces ctx ++ added).
Proof.
  revert ctx c. induction entries as [|e entries IH]; intros ctx c; cbn [fold_left].
  - exists []. cbn [fst]. now rewrite set_surfaces_same.
  - rewrite buildSurface_eq.
    destruct (IH (set_surfaces ctx (surfaces ctx ++ surfacePatch c ctx (snd e))) newClipper)
      as [added Hadded].
    exists (surfacePatch c ctx (snd e) ++ added).
    rewrite Hadded. unfold set_surfaces. cbn. now rewrite app_assoc.
Qed.

Lemma buildRoads_any_clipper (c : Clipper) (ctx : TerraContext) (carMap walkMap : RoadMap) :
  exists carRoadPaths extrudedWalkRoads,
    buildRoads c ctx carMap walkMap =
    (set_walkRoads
       (set_carRoads ctx
          (rectIntersection newClipper (clipRect ctx)
             (waterDifference newClipper (water ctx) carRoadPaths)))
       (rectIntersection newClipper (clipRect ctx)
          (waterDifference newClipper (water ctx) extrudedWalkRoads)),
     newClipper).
Proof.
  unfold buildRoads, buildOffsetSolution.
  destruct (fold_left offsetRoadClass carMap (c, newClipperOffset)) as [c1 o1].
  destruct (fold_left offsetRoadClass walkMap (Clear c1, o1)) as [c2 o2].
  unfold Clear. fold newClipper. rewrite !clipRoads_eq.
  eexists. eexists. reflexivity.
Qed.

(** X1.  Each stage writes its own layer and nothing else, whatever the
    clipper holds when it starts: the context a stage returns is the one it
    was given with the water (the two road layers, the background)
    replaced, and the surface stage only appends to the surfaces it finds. *)
Theorem stages_write_their_own_layer (c : Clipper) (ctx : TerraContext) (b : TerraBuilder) :
  (let ctx' := fst (buildWater c ctx (waters_ b)) in
   ctx' = set_water ctx (water ctx')) /\
  (let ctx' := fst (buildRoads c ctx (carRoads_ b) (walkRoads_ b)) in
   ctx' = set_walkRoads (set_carRoads ctx (carRoads ctx')) (walkRoads ctx')) /\
  (exists added,
     fst (buildSurfaces c ctx (surfaces_ b)) = set_surfaces ctx (surfaces ctx ++ added)) /\
  (let ctx' := fst (buildBackground c ctx) in
   ctx' = set_background ctx (background ctx')).
Proof.
  split; [|split; [|split]].
  - rewrite buildWater_eq. reflexivity.
  - destruct (buildRoads_any_clipper c ctx (carRoads_ b) (walkRoads_ b))
      as (cars & walks & Hroads).
    rewrite Hroads. reflexivity.
  - apply surfaces_loop_appends.
  - rewrite buildBackground_eq. reflexivity.
Qed.

Lemma surfaces_loop_clears (entries : list (Z * MeshRegions)) (ctx : TerraContext)
  (c : Clipper) :
  entries <> [] -> snd (fold_left buildSurface entries (ctx, c)) = newClipper.
Proof.
  destruct entries as [|e entries]; [contradiction|]. intros _.
  cbn [fold_left]. rewrite buildSurface_eq, surfaces_loop. reflexivity.
Qed.

(** X2.  Every stage hands the clipper on cleared, whatever it held, so
    that no path of one stage reaches the next; the one exception is the
    surface stage on a map without entries, which executes nothing and
    returns the context and the clipper as it found them. *)
Theorem stages_clear_the_clipper (c : Clipper) (ctx : TerraContext) (b : TerraBuilder) :
  snd (buildWater c ctx (waters_ b)) = newClipper /\
  snd (buildRoads c ctx (carRoads_ b) (walkRoads_ b)) = newClipper /\
  snd (buildBackground c ctx) = newClipper /\
  (SurfaceMap.elements (surfaces_ b) <> [] ->
   snd (buildSurfaces c ctx (surfaces_ b)) = newClipper) /\
  (SurfaceMap.elements (surfaces_ b) = [] ->
   buildSurfaces c ctx (surfaces_ b) = (ctx, c)).
Proof.
  split; [|split; [|split; [|split]]].
  - now rewrite buildWater_eq.
  - destruct (buildRoads_any_clipper c ctx (carRoads_ b) (walkRoads_ b))
      as (cars & walks & Hroads).
    now rewrite Hroads.
  - now rewrite buildBackground_eq.
  - intros Hne. unfold buildSurfaces. now apply surfaces_loop_clears.
  - intros Hnil. unfold buildSurfaces. now rewrite Hnil.
Qed.

Lemma offset_loop_from (roads : RoadMap) (c : Clipper) (o : ClipperOffset)
  (r : Z * MeshRegions) :
  fold_left offsetRoadClass (r :: roads) (c, o) =
  (c ++ tagged ptSubject true
          (inflate (o ++ map (fun p => mkOffsetAdded p jtMiter etOpenSquare)
                              (buildPaths (snd r)))
                   (Double.of_int (fst r))) ++
        tagged ptSubject true (flat_map offsetClass roads),
   newClipperOffset).
Proof.
  cbn [fold_left]. unfold offsetRoadClass at 2.
  unfold OffsetExecute, OffsetClear. rewrite OffsetAddPaths_app, AddPaths_tagged.
  fold newClipperOffset. rewrite offset_loop. now rewrite <- app_assoc.
Qed.

(** X3.  [buildOffsetSolution] offsets each road class on its own, by its
    own key, and unions the results in one positive-fill operation: the
    offsetter is cleared after every class, so only the first class sees
    paths left in the offsetter, and only the union sees paths left in the
    clipper.  Without road classes nothing is offset, and the offsetter is
    returned as it was. *)
Theorem road_classes_offset_separately (c : Clipper) (o : ClipperOffset)
  (r : Z * MeshRegions) (roads : RoadMap) :
  buildOffsetSolution c o [] =
    (clip ctUnion pftPositive pftPositive c, newClipper, o) /\
  buildOffsetSolution c o (r :: roads) =
    (clip ctUnion pftPositive pftPositive
       (c ++
        tagged ptSubject true
          (inflate (o ++ map (fun p => mkOffsetAdded p jtMiter etOpenSquare)
                              (buildPaths (snd r)))
                   (Double.of_int (fst r))) ++
        tagged ptSubject true
          (flat_map (fun r' =>
                       inflate (map (fun p => mkOffsetAdded p jtMiter etOpenSquare)
                                    (buildPaths (snd r')))
                               (Double.of_int (fst r')))
                    roads)),
     newClipper, newClipperOffset).
Proof.
  split.
  - reflexivity.
  - unfold buildOffsetSolution. rewrite offset_loop_from. reflexivity.
Qed.

End Stages.


Section Contract.
Context {E : Engine} {point : Type} {S : Sound E point}.

Lemma subjectsOf_cons (a : Added) (l : list Added) :
  subjectsOf (a :: l) = (if isSubject a then [addedPath a] else []) ++ subjectsOf l.
Proof. unfold subjectsOf. cbn [filter]. now destruct (isSubject a). Qed.

Lemma clipsOf_cons (a : Added) (l : list Added) :
  clipsOf (a :: l) = (if isSubject a then [] else [addedPath a]) ++ clipsOf l.
Proof. unfold clipsOf. cbn [filter]. now destruct (isSubject a). Qed.

(** X4.  For an engine that meets its contract, the water and the two road
    layers a stage commits lie inside the clip rectangle of the context,
    whatever the clipper held when the stage started. *)
Theorem committed_within_clip_rectangle (c : Clipper) (ctx : TerraContext)
  (b : TerraBuilder) (f : PolyFillType) (p : point) :
  f <> pftNegative ->
  (filled f (water (fst (buildWater c ctx (waters_ b)))) p ->
   filled defaultFillType [clipRect ctx] p) /\
  (filled f (carRoads (fst (buildRoads c ctx (carRoads_ b) (walkRoads_ b)))) p ->
   filled defaultFillType [clipRect ctx] p) /\
  (filled f (walkRoads (fst (buildRoads c ctx (carRoads_ b) (walkRoads_ b)))) p ->
   filled defaultFillType [clipRect ctx] p).
Proof.
  intros Hf. split; [|split].
  - rewrite buildWater_eq. cbn [fst water set_water]. intros H.
    now apply rect_intersection_sound in H as [_ H].
  - destruct (buildRoads_any_clipper c ctx (carRoads_ b) (walkRoads_ b))
      as (cars & walks & Hroads).
    rewrite Hroads. cbn [fst carRoads set_walkRoads set_carRoads]. intros H.
    now apply rect_intersection_sound in H as [_ H].
  - destruct (buildRoads_any_clipper c ctx (carRoads_ b) (walkRoads_ b))
      as (cars & walks & Hroads).
    rewrite Hroads. cbn [fst walkRoads set_walkRoads set_carRoads]. intros H.
    now apply rect_intersection_sound in H as [_ H].
Qed.

Lemma background_difference_sound (ctx : TerraContext) (f : PolyFillType) (p : point) :
  f <> pftNegative ->
  (filled f (backgroundDifference newClipper ctx) p <->
   filled pftPositive [clipRect ctx] p /\
   ~ filled pftPositive
       (carRoads ctx ++ walkRoads ctx ++ water ctx ++ surfaces ctx) p).
Proof.
  intros Hf. unfold backgroundDifference, newClipper. cbn [app].
  rewrite clip_sound by exact Hf.
  rewrite subjectsOf_cons, clipsOf_cons. cbn [isSubject addedAs addedPath app].
  rewrite !subjectsOf_app, !clipsOf_app, !subjectsOf_tagged, !clipsOf_tagged.
  cbn [app selects]. reflexivity.
Qed.

(** X5.  For an engine that meets its contract, the background [build]
    commits is exactly the complement of the other four layers inside the
    clip rectangle, all read under positive fill: a point is in the
    background if and only if it is in the clip rectangle and not in the
    car roads, walk roads, water and surfaces taken together.  The same
    holds for [buildBackground] on any context, from a cleared clipper. *)
Theorem background_is_the_complement (b : TerraBuilder) (r : Rectangle)
  (ctx0 : TerraContext) (f : PolyFillType) (p : point) :
  f <> pftNegative ->
  (let ctx := layers b r in
   filled f (background ctx) p <->
   filled pftPositive [clipRect ctx] p /\
   ~ filled pftPositive
       (carRoads ctx ++ walkRoads ctx ++ water ctx ++ surfaces ctx) p) /\
  (filled f (background (fst (buildBackground newClipper ctx0))) p <->
   filled pftPositive [clipRect ctx0] p /\
   ~ filled pftPositive
       (carRoads ctx0 ++ walkRoads ctx0 ++ water ctx0 ++ surfaces ctx0) p).
Proof.
  intros Hf. split.
  - cbv zeta. rewrite layers_eq. unfold commitBackground.
    cbn [background clipRect carRoads walkRoads water surfaces set_background].
    now apply background_difference_sound.
  - rewrite buildBackground_eq. cbn [fst background set_background].
    now apply background_difference_sound.
Qed.

(** X6.  For an engine that meets its contract, what the surface stage
    appends for one entry lies inside the clip rectangle and covers no
    point of the car roads, walk roads, water and surfaces committed
    before it (taken together under positive fill): an entry never takes
    area from a layer or from a lower key committed earlier. *)
Theorem surface_patch_respects_earlier_layers (c : Clipper) (ctx : TerraContext)
  (entry : Z * MeshRegions) :
  exists patch,
    surfaces (fst (buildSurface (ctx, c) entry)) = surfaces ctx ++ patch /\
    forall (f : PolyFillType) (p : point),
      f <> pftNegative ->
      filled f patch p ->
      filled defaultFillType [clipRect ctx] p /\
      ~ filled pftPositive
          (carRoads ctx ++ walkRoads ctx ++ water ctx ++ surfaces ctx) p.
Proof.
  exists (surfacePatch c ctx (snd entry)). split.
  - now rewrite buildSurface_eq.
  - intros f p Hf H. unfold surfacePatch in H.
    apply rect_intersection_sound in H as [H Hrect]; [|exact Hf].
    split; [exact Hrect|].
    apply clip_sound in H; [|apply default_not_negative].
    rewrite !subjectsOf_app, !clipsOf_app, !subjectsOf_tagged, !clipsOf_tagged in H.
    cbn [app selects] in H. rewrite app_nil_r in H. exact (proj2 H).
Qed.

End Contract.

Section Pipeline.
Context {E : Engine}.

Lemma commitSurfaces_keeps (entries : list (Z * MeshRegions)) (ctx : TerraContext) :
  let ctx' := fold_left commitSurface entries ctx in
  water ctx' = water ctx /\ carRoads ctx' = carRoads ctx /\
  walkRoads ctx' = walkRoads ctx /\ clipRect ctx' = clipRect ctx.
Proof.
  revert ctx. induction entries as [|e entries IH]; intros ctx; cbn [fold_left].
  - repeat split.
  - destruct (IH (commitSurface ctx e)) as (Hw & Hc & Hk & Hr).
    cbv zeta. now rewrite Hw, Hc, Hk, Hr.
Qed.

(** X9.  No stage of [build] edits what an earlier stage committed: the
    water of the context [build] ends with is the water the water stage
    committed, its road layers are those of the road stage, its surfaces
    those of the surface stage, and the whole context is what the
    background stage returns for the context of the surface stage. *)
Theorem layers_keep_committed_layers (b : TerraBuilder) (r : Rectangle) :
  let ctx0 := set_clipRect (newContext 1 8) (createPathFromRect r) in
  let ctx1 := fst (buildWater newClipper ctx0 (waters_ b)) in
  let ctx2 := fst (buildRoads newClipper ctx1 (carRoads_ b) (walkRoads_ b)) in
  let ctx3 := fst (buildSurfaces newClipper ctx2 (surfaces_ b)) in
  let ctx := layers b r in
  water ctx = water ctx1 /\
  carRoads ctx = carRoads ctx2 /\ walkRoads ctx = walkRoads ctx2 /\
  surfaces ctx = surfaces ctx3 /\
  ctx = fst (buildBackground newClipper ctx3).
Proof.
  cbv zeta. rewrite layers_eq, buildWater_eq. cbn [fst].
  rewrite buildRoads_eq. cbn [fst]. rewrite buildSurfaces_eq. cbn [fst].
  rewrite buildBackground_eq. cbn [fst].
  fold (commitWater (set_clipRect (newContext 1 8) (createPathFromRect r)) (waters_ b)).
  set (ctx1 := commitWater _ _).
  fold (commitRoads ctx1 (carRoads_ b) (walkRoads_ b)).
  set (ctx2 := commitRoads _ _ _).
  destruct (commitSurfaces_keeps (SurfaceMap.elements (surfaces_ b)) ctx2)
    as (Hw & Hc & Hk & _).
  unfold commitBackground.
  cbn [water carRoads walkRoads surfaces set_background].
  rewrite Hw, Hc, Hk. repeat split.
Qed.

End Pipeline.

Section PipelineContract.
Context {E : Engine} {point : Type} {S : Sound E point}.

(** X10.  For an engine that meets its contract, in the context [build]
    ends with no point of the car roads or of the walk roads lies in the
    water, no point of the walk roads lies in the car roads, and the water
    and both road layers lie inside the clip rectangle. *)
Theorem build_layers_disjoint (b : TerraBuilder) (r : Rectangle)
  (f : PolyFillType) (p : point) :
  f <> pftNegative ->
  let ctx := layers b r in
  (filled f (water ctx) p -> filled defaultFillType [clipRect ctx] p) /\
  (filled f (carRoads ctx) p ->
     ~ filled pftPositive (water ctx) p /\ filled defaultFillType [clipRect ctx] p) /\
  (filled f (walkRoads ctx) p ->
     ~ filled pftPositive (water ctx) p /\ ~ filled f (carRoads ctx) p /\
     filled defaultFillType [clipRect ctx] p).
Proof.
  intros Hf. cbv zeta. rewrite layers_eq. unfold commitBackground.
  cbn [water carRoads walkRoads clipRect set_background].
  set (ctx1 := commitWater _ _).
  destruct (commitSurfaces_keeps (SurfaceMap.elements (surfaces_ b))
              (commitRoads ctx1 (carRoads_ b) (walkRoads_ b))) as (Hw & Hc & Hk & Hr).
  rewrite Hw, Hc, Hk, Hr. unfold commitRoads.
  cbn [water carRoads walkRoads clipRect set_walkRoads set_carRoads].
  pose proof (@default_not_negative E point S) as Hd.
  split; [|split].
  - unfold ctx1, commitWater. cbn [water clipRect set_water]. intros H.
    now apply rect_intersection_sound in H as [_ H].
  - intros H. apply rect_intersection_sound in H as [H Hrect]; [|exact Hf].
    apply water_difference_sound in H as [_ H]; [|exact Hd]. now split.
  - intros H. apply rect_intersection_sound in H as [H Hrect]; [|exact Hf].
    apply water_difference_sound in H as [Hwalk Hnw]; [|exact Hd].
    apply extrusion_sound in Hwalk as [_ Hnc]; [|discriminate].
    repeat split; [exact Hnw| |exact Hrect].
    intros Hcar. apply Hnc.
    apply rect_intersection_sound in Hcar as [Hcar _]; [|exact Hf].
    apply water_difference_sound in Hcar as [Hcar _]; [|exact Hd].
    unfold roadUnion in *.
    eapply solution_fill_independent; [| |exact Hcar]; [discriminate|exact Hd].
Qed.

End PipelineContract.

(** *** Runs on the executable engine *)

Definition soundNonZero : Sound LatticeMore.nonZeroEngine IntPoint.
Proof.
  refine {| filled := fun f ps p => Lattice.covered f ps p = true |}.
  - intros. now apply LatticeFacts.latticeClip_sound.
  - discriminate.
Defined.

(** One car road through (1,1) on the tile whose corner is (1,1): the
    vertex is committed as car road, and is not in the water. *)
Lemma build_layers_disjoint_witness :
  let a := mkIntPoint 100000000 100000000 in
  let ctx := layers (E := LatticeMore.nonZeroEngine)
               (mkBuilder [] [(1, [mkMeshRegion [mkPoint 1 1]])] [] noSurfaces)
               (mkRectangle 1 1 2 2) in
  ~ filled (Sound := soundNonZero) pftPositive (water ctx) a /\
  filled (Sound := soundNonZero) pftNonZero [clipRect ctx] a.
Proof.
  intros a ctx.
  refine (proj1 (proj2 (build_layers_disjoint (S := soundNonZero)
                          (mkBuilder [] [(1, [mkMeshRegion [mkPoint 1 1]])] [] noSurfaces)
                          (mkRectangle 1 1 2 2) pftPositive a _)) _).
  - discriminate.
  - vm_compute. reflexivity.
Defined.

(** *** Runs on the executable engine *)

Lemma stages_clear_the_clipper_witness :
  let ctx := set_clipRect (newContext 1 8) [mkIntPoint 1 1] in
  let left := [mkAdded [mkIntPoint 7 7] ptSubject true] in
  let one := mkBuilder [] [] [] (SurfaceMap.add 1 [square 0 0 1 1] noSurfaces) in
  snd (buildSurfaces (E := Lattice.engine) left ctx (surfaces_ one)) = newClipper /\
  buildSurfaces (E := Lattice.engine) left ctx (surfaces_ waterOnly) = (ctx, left).
Proof.
  intros ctx left one. split.
  - refine (proj1 (proj2 (proj2 (proj2
              (stages_clear_the_clipper (E := Lattice.engine) left ctx one)))) _).
    vm_compute. discriminate.
  - refine (proj2 (proj2 (proj2 (proj2
              (stages_clear_the_clipper (E := Lattice.engine) left ctx waterOnly)))) _).
    reflexivity.
Defined.

Lemma committed_within_clip_rectangle_witness :
  let a := mkIntPoint 100000000 100000000 in
  filled (Sound := LatticeFacts.sound) pftEvenOdd [[a]] a.
Proof.
  intros a.
  refine (proj1 (committed_within_clip_rectangle (S := LatticeFacts.sound)
                   newClipper (set_clipRect (newContext 1 8) [a])
                   (mkBuilder [mkMeshRegion [mkPoint 1 1]] [] [] noSurfaces)
                   pftPositive a _) _).
  - discriminate.
  - vm_compute. reflexivity.
Defined.

Lemma background_is_the_complement_witness :
  let o := mkIntPoint 0 0 in
  let ctx := layers (E := Lattice.engine) waterOnly (mkRectangle 0 0 10 10) in
  filled (Sound := LatticeFacts.sound) pftPositive [clipRect ctx] o /\
  ~ filled (Sound := LatticeFacts.sound) pftPositive
      (carRoads ctx ++ walkRoads ctx ++ water ctx ++ surfaces ctx) o.
Proof.
  intros o ctx.
  refine (proj1 (proj1 (background_is_the_complement (S := LatticeFacts.sound)
                          waterOnly (mkRectangle 0 0 10 10) ctx pftPositive o _)) _).
  - discriminate.
  - vm_compute. reflexivity.
Defined.

Lemma surface_patch_witness :
  let a := mkIntPoint 100000000 100000000 in
  let ctx := set_water (set_clipRect (newContext 1 8) [a]) [[mkIntPoint 0 0]] in
  exists patch,
    surfaces (fst (buildSurface (E := Lattice.engine) (ctx, newClipper)
                                (1, [mkMeshRegion [mkPoint 1 1]]))) =
      surfaces ctx ++ patch /\
    filled (Sound := LatticeFacts.sound) pftPositive patch a /\
    ~ filled (Sound := LatticeFacts.sound) pftPositive
        (carRoads ctx ++ walkRoads ctx ++ water ctx ++ surfaces ctx) a.
Proof.
  intros a ctx.
  destruct (surface_patch_respects_earlier_layers (S := LatticeFacts.sound)
              newClipper ctx (1, [mkMeshRegion [mkPoint 1 1]])) as (patch & Hpatch & Hsound).
  exists patch. split; [exact Hpatch|].
  assert (Hin : filled (Sound := LatticeFacts.sound) pftPositive patch a).
  { vm_compute in Hpatch. subst patch. vm_compute. reflexivity. }
  split; [exact Hin|].
  exact (proj2 (Hsound pftPositive a ltac:(discriminate) Hin)).
Defined.

End TerraExtra.

(* ================================================================== *)
(** ** The tree builder: bounds and segments without trees *)

Module TreeExtra.
Import Tree TreeMore TreeProps.

Lemma to_signed_truncate (v : float) (k : Z) :
  Double.truncate v = Some k -> - 2 ^ 31 <= k < 2 ^ 31 -> Double.to_signed 32 v = k.
Proof.
  intros Ht Hk. unfold Double.to_signed. rewrite Ht.
  change (2 ^ (32 - 1)) with (2 ^ 31).
  destruct (Z.leb_spec (- 2 ^ 31) k); [|lia].
  destruct (Z.ltb_spec k (2 ^ 31)); [reflexivity|lia].
Qed.

Lemma countUp_nonpositive (n : Z) : n <= 0 -> countUp n = [].
Proof.
  intros Hn. unfold countUp. now replace (Z.to_nat n) with 0%nat by lia.
Qed.

Section Bounds.
Context {C : Collaborators}.

(** X7.  [visitWay] reads the coordinates of a way only inside the vector
    exactly when the way has a coordinate: then the loop visits each point
    with its successor, in order, and the callback gets the mesh the
    segments were placed on one after the other; on a way without
    coordinates the loop bound [size() - 1] wraps around and the first read
    is out of range. *)
Theorem visitWay_stays_in_bounds (way : Way) :
  let style := forElement way levelOfDetail in
  let step := getValue style TreeStepKey in
  let treeMesh := generate style (mkVector3 0 0 0) (newMesh "") in
  (visitWay way = None <-> coordinates way = []) /\
  (coordinates way <> [] ->
   visitWay way =
   Some (fold_left (fun mesh pp => placeSegment treeMesh step (fst pp) (snd pp) mesh)
                   (consecutive (coordinates way))
                   (newMesh (getMeshName WayMeshNamePrefix way)))).
Proof.
  intros style step treeMesh.
  assert (Hsome : coordinates way <> [] ->
    visitWay way =
    Some (fold_left (fun mesh pp => placeSegment treeMesh step (fst pp) (snd pp) mesh)
                    (consecutive (coordinates way))
                    (newMesh (getMeshName WayMeshNamePrefix way)))).
  { intros Hne. unfold visitWay. fold style. fold step. fold treeMesh.
    destruct (coordinates way) as [|a rest]; [contradiction|].
    change (length (a :: rest) - 1)%nat with (length rest - 0)%nat.
    rewrite Nat.sub_0_r. exact (segment_loop treeMesh step rest [] a _). }
  split; [|exact Hsome]. split.
  - intros Hnone. destruct (coordinates way) as [|a rest] eqn:Hc; [reflexivity|].
    rewrite Hsome in Hnone by discriminate. discriminate Hnone.
  - intros Hnil. unfold visitWay. now rewrite Hnil.
Qed.

(** X8.  A segment whose quotient distance / treeStep truncates to zero or
    to a negative [int] gets no tree: on a way all of whose segments are
    such (a negative tree step, segments shorter than the step, or a way of
    one point) the callback gets the mesh named after the way with nothing
    copied to it. *)
Theorem no_trees_for_nonpositive_counts (way : Way) :
  let step := getValue (forElement way levelOfDetail) TreeStepKey in
  coordinates way <> [] ->
  Forall (fun pp => exists k, truncatedCount step pp = Some k /\ - 2 ^ 31 <= k <= 0)
         (consecutive (coordinates way)) ->
  visitWay way = Some (newMesh (getMeshName WayMeshNamePrefix way)).
Proof.
  intros step Hne Hall.
  rewrite (proj2 (visitWay_stays_in_bounds way) Hne). f_equal. fold step.
  generalize (newMesh (getMeshName WayMeshNamePrefix way)) as mesh.
  induction Hall as [|pp pps (k & Hk & Hr) _ IH]; intros mesh.
  - reflexivity.
  - cbn [fold_left]. rewrite <- (IH mesh) at 2. f_equal.
    unfold placeSegment.
    rewrite (to_signed_truncate _ k Hk) by lia.
    now rewrite countUp_nonpositive by lia.
Qed.

End Bounds.

Lemma visitWay_stays_in_bounds_witness :
  visitWay (C := listCollaborators) (mkWay 1 [mkGeo 0 0; mkGeo 2.5 0; mkGeo 2.75 0]) =
  Some [mkVector3 0 0 0; mkVector3 0 0 1.25].
Proof.
  rewrite (proj2 (visitWay_stays_in_bounds (C := listCollaborators)
             (mkWay 1 [mkGeo 0 0; mkGeo 2.5 0; mkGeo 2.75 0]))) by discriminate.
  vm_compute. reflexivity.
Defined.

Lemma no_trees_for_nonpositive_counts_witness :
  visitWay (C := backwardCollaborators) (mkWay 1 [mkGeo 0 0; mkGeo 2.5 0; mkGeo 2.75 0]) =
  Some [].
Proof.
  refine (no_trees_for_nonpositive_counts (C := backwardCollaborators)
            (mkWay 1 [mkGeo 0 0; mkGeo 2.5 0; mkGeo 2.75 0]) _ _).
  - discriminate.
  - repeat constructor.
    + exists (-2). split; [vm_compute; reflexivity|lia].
    + exists 0. split; [vm_compute; reflexivity|lia].
Defined.

End TreeExtra.
